(** * DBPool: the store registry, the checkpoint record and the batch protocol

    A shallow embedding of [pkg/db/db_pool.go] together with the part of
    [pkg/utils/pb] (the generated code of [block.proto]) that the pool uses. *)

From Stdlib Require Import ZArith List String Ascii Strings.Byte Lia Bool.
From stdpp Require Import base option list gmap strings.

Local Open Scope Z_scope.

(** ** Bytes and fixed-width integers *)

Abbreviation bytes := (list Byte.byte).

Definition Z_of_byte (b : Byte.byte) : Z := Z.of_N (Byte.to_N b).

Definition byte_of_Z (z : Z) : Byte.byte :=
  match Byte.of_N (Z.to_N (z mod 256)) with
  | Some b => b
  | None => Byte.x00
  end.

#[global] Instance byte_eq_dec : EqDecision Byte.byte := Byte.byte_eq_dec.

(** Go's [len] of a slice or string. *)
Definition len {A : Type} (l : list A) : Z := Z.of_nat (length l).

(** [math.MinInt32], the value of [metaDBID] when no metadata store is designated. *)
Definition MinInt32 : Z := - 2 ^ 31.

(** The conversions [int32(x)] and [int64(x)]: two's complement wrap-around. *)
Definition int32 (z : Z) : Z := (z + 2 ^ 31) mod 2 ^ 32 - 2 ^ 31.
Definition int64 (z : Z) : Z := (z + 2 ^ 63) mod 2 ^ 64 - 2 ^ 63.
(** The conversion [uint64(x)]. *)
Definition uint64 (z : Z) : Z := z mod 2 ^ 64.

Definition is_int32 (z : Z) : Prop := - 2 ^ 31 <= z < 2 ^ 31.
Definition is_int64 (z : Z) : Prop := - 2 ^ 63 <= z < 2 ^ 63.

(** ** Errors and outcomes of a call *)

(** Error values of the store engine; [leveldb.ErrNotFound] is the one the
    pool compares against. *)
Inductive engine_error : Type :=
| ErrNotFound
| ErrEngine (msg : string).

(** The error values a method of the pool can return. *)
Inductive error : Type :=
| leveldb_err (e : engine_error)
| ErrMetaDBAlreadyRegistered
| ErrNoMetaDBRegistered
| proto_err (msg : string).

#[global] Instance engine_error_eq_dec : EqDecision engine_error.
Proof. solve_decision. Defined.
#[global] Instance error_eq_dec : EqDecision error.
Proof. solve_decision. Defined.

(** A call either returns its results or panics. *)
Inductive outcome (A : Type) : Type :=
| Returns (a : A)
| Panics (msg : string).
Arguments Returns {A} a.
Arguments Panics {A} msg.

(** The runtime panic of a method call on a nil interface value. *)
Definition nil_dereference : string :=
  "invalid memory address or nil pointer dereference".

(** ** The messages of [block.proto] *)

(** The fields of the message. The bookkeeping of the generated struct
    ([state], [sizeCache], [unknownFields]) is left out: a record the
    program builds field by field holds no unknown fields. *)
Record BlockInfo : Type := {
  ChainId : string;
  Env : string;
  BlockNum : Z;
  BlockHash : string;
  MsgOffset : Z;
  BlockType : Z;
  BlockSize : Z;
}.

Definition BlockInfo_UNKNOWN : Z := 0.
Definition BlockInfo_DATA : Z := 1.
Definition BlockInfo_HEADER : Z := 2.

Record BatchItem : Type := {
  BatchItem_Id : Z;
  Data : bytes;
}.

Record DBInfo : Type := {
  DBInfo_Id : Z;
  DbType : string;
  DbPath : string;
  IsMeta : bool;
}.

#[global] Instance BlockInfo_eq_dec : EqDecision BlockInfo.
Proof. solve_decision. Defined.

(** The zero value [BlockInfo{}], which is also what [Reset] leaves. *)
Definition BlockInfo_zero : BlockInfo :=
  {| ChainId := ""; Env := ""; BlockNum := 0; BlockHash := "";
     MsgOffset := 0; BlockType := BlockInfo_UNKNOWN; BlockSize := 0 |}.

(** The fields as the decoder assigns them. *)
Definition with_ChainId (v : string) (m : BlockInfo) : BlockInfo :=
  {| ChainId := v; Env := Env m; BlockNum := BlockNum m; BlockHash := BlockHash m;
     MsgOffset := MsgOffset m; BlockType := BlockType m; BlockSize := BlockSize m |}.
Definition with_Env (v : string) (m : BlockInfo) : BlockInfo :=
  {| ChainId := ChainId m; Env := v; BlockNum := BlockNum m; BlockHash := BlockHash m;
     MsgOffset := MsgOffset m; BlockType := BlockType m; BlockSize := BlockSize m |}.
Definition with_BlockNum (v : Z) (m : BlockInfo) : BlockInfo :=
  {| ChainId := ChainId m; Env := Env m; BlockNum := v; BlockHash := BlockHash m;
     MsgOffset := MsgOffset m; BlockType := BlockType m; BlockSize := BlockSize m |}.
Definition with_BlockHash (v : string) (m : BlockInfo) : BlockInfo :=
  {| ChainId := ChainId m; Env := Env m; BlockNum := BlockNum m; BlockHash := v;
     MsgOffset := MsgOffset m; BlockType := BlockType m; BlockSize := BlockSize m |}.
Definition with_MsgOffset (v : Z) (m : BlockInfo) : BlockInfo :=
  {| ChainId := ChainId m; Env := Env m; BlockNum := BlockNum m; BlockHash := BlockHash m;
     MsgOffset := v; BlockType := BlockType m; BlockSize := BlockSize m |}.
Definition with_BlockType (v : Z) (m : BlockInfo) : BlockInfo :=
  {| ChainId := ChainId m; Env := Env m; BlockNum := BlockNum m; BlockHash := BlockHash m;
     MsgOffset := MsgOffset m; BlockType := v; BlockSize := BlockSize m |}.
Definition with_BlockSize (v : Z) (m : BlockInfo) : BlockInfo :=
  {| ChainId := ChainId m; Env := Env m; BlockNum := BlockNum m; BlockHash := BlockHash m;
     MsgOffset := MsgOffset m; BlockType := BlockType m; BlockSize := v |}.

(** The values a [BlockInfo] can hold: [int64] fields, an [int32] enum, and
    strings whose length is an [int]. *)
Definition BlockInfo_typed (m : BlockInfo) : Prop :=
  is_int64 (BlockNum m) /\ is_int64 (MsgOffset m) /\
  is_int32 (BlockType m) /\ is_int64 (BlockSize m) /\
  Z.of_nat (String.length (ChainId m)) < 2 ^ 63 /\
  Z.of_nat (String.length (Env m)) < 2 ^ 63 /\
  Z.of_nat (String.length (BlockHash m)) < 2 ^ 63.

(** ** The wire format of protocol buffers

    [proto.Marshal] and [proto.Unmarshal] of [google.golang.org/protobuf] at
    the message [BlockInfo], as the field tags of the generated code fix
    them: fields 1, 2 and 4 are length-delimited UTF-8 strings, fields 3,
    5, 6 and 7 are varints, and a proto3 field that holds its zero value
    is not written. The decoder's short cuts for varints of one and two
    bytes read what [ConsumeVarint] reads and are not written out. *)

(** Wire types. *)
Definition VarintType : Z := 0.
Definition Fixed64Type : Z := 1.
Definition BytesType : Z := 2.
Definition StartGroupType : Z := 3.
Definition EndGroupType : Z := 4.
Definition Fixed32Type : Z := 5.

Definition MinValidNumber : Z := 1.
Definition MaxValidNumber : Z := 2 ^ 29 - 1.
Definition MaxInt32 : Z := 2 ^ 31 - 1.
Definition DefaultRecursionLimit : Z := 10000.

(** [protowire.AppendVarint]: seven bits a byte, the low ones first; a
    [uint64] takes at most ten bytes. *)
Fixpoint AppendVarint_loop (n : nat) (v : Z) : bytes :=
  match n with
  | O => []
  | S n' =>
      if v <? 128 then [byte_of_Z v]
      else byte_of_Z (v mod 128 + 128) :: AppendVarint_loop n' (v / 128)
  end.

Definition AppendVarint (v : Z) : bytes := AppendVarint_loop 10 v.

(** [protowire.ConsumeVarint]: the value and the bytes after it; [None] on
    a truncated varint and on one that overflows 64 bits (the tenth byte
    holds one bit). *)
Fixpoint ConsumeVarint_loop (n : nat) (b : bytes) : option (Z * bytes) :=
  match n, b with
  | O, _ => None
  | _, [] => None
  | S n', c :: b' =>
      let y := Z_of_byte c in
      if y <? 128 then
        match n' with
        | O => if y <? 2 then Some (y, b') else None
        | S _ => Some (y, b')
        end
      else
        match ConsumeVarint_loop n' b' with
        | Some (v, r) => Some (y - 128 + 128 * v, r)
        | None => None
        end
  end.

Definition ConsumeVarint (b : bytes) : option (Z * bytes) := ConsumeVarint_loop 10 b.

(** [protowire.ConsumeBytes]: a length and that many bytes. *)
Definition ConsumeBytes (b : bytes) : option (bytes * bytes) :=
  match ConsumeVarint b with
  | None => None
  | Some (m, b1) =>
      if len b1 <? m then None
      else Some (firstn (Z.to_nat m) b1, skipn (Z.to_nat m) b1)
  end.

Definition ConsumeFixed (n : nat) (b : bytes) : option bytes :=
  if (length b <? n)%nat then None else Some (skipn n b).

(** [protowire.ConsumeTag] *)
Definition ConsumeTag (b : bytes) : option (Z * Z * bytes) :=
  match ConsumeVarint b with
  | None => None
  | Some (v, b1) =>
      if MaxInt32 <? v / 8 then None
      else if v / 8 <? MinValidNumber then None
      else Some (v / 8, v mod 8, b1)
  end.

(** The value of a field that is not a group. *)
Definition consumeScalarValue (typ : Z) (b : bytes) : option bytes :=
  if typ =? VarintType then snd <$> ConsumeVarint b
  else if typ =? Fixed32Type then ConsumeFixed 4 b
  else if typ =? Fixed64Type then ConsumeFixed 8 b
  else if typ =? BytesType then snd <$> ConsumeBytes b
  else None.

(** The fields of a group up to its end marker; every round consumes a
    tag, so [fuel] bounds the rounds by the number of bytes. *)
Fixpoint consumeGroup (fuel : nat) (num : Z) (b : bytes) (depth : Z) : option bytes :=
  match fuel with
  | O => None
  | S fuel' =>
      match ConsumeTag b with
      | None => None
      | Some (num2, typ2, b1) =>
          if typ2 =? EndGroupType then
            if num =? num2 then Some b1 else None
          else
            let value :=
              if typ2 =? StartGroupType then
                if depth - 1 <? 0 then None
                else consumeGroup fuel' num2 b1 (depth - 1)
              else consumeScalarValue typ2 b1 in
            match value with
            | None => None
            | Some b2 => consumeGroup fuel' num b2 depth
            end
      end
  end.

(** [protowire.ConsumeFieldValue]: the bytes after the value of a field
    the message does not know. *)
Definition ConsumeFieldValue (num typ : Z) (b : bytes) : option bytes :=
  if typ =? StartGroupType then
    if DefaultRecursionLimit <? 0 then None
    else consumeGroup (length b) num b DefaultRecursionLimit
  else consumeScalarValue typ b.

(** [utf8.Valid] *)
Definition utf8_cont (c : Byte.byte) : bool :=
  (128 <=? Z_of_byte c) && (Z_of_byte c <=? 191).
Definition utf8_in (lo hi : Z) (c : Byte.byte) : bool :=
  (lo <=? Z_of_byte c) && (Z_of_byte c <=? hi).

Fixpoint utf8_Valid (p : bytes) : bool :=
  match p with
  | [] => true
  | c0 :: p1 =>
      let x := Z_of_byte c0 in
      if x <? 128 then utf8_Valid p1
      else if (194 <=? x) && (x <=? 223) then
        match p1 with
        | c1 :: p2 => utf8_cont c1 && utf8_Valid p2
        | _ => false
        end
      else if (224 <=? x) && (x <=? 239) then
        match p1 with
        | c1 :: c2 :: p3 =>
            utf8_in (if x =? 224 then 160 else 128) (if x =? 237 then 159 else 191) c1
            && utf8_cont c2 && utf8_Valid p3
        | _ => false
        end
      else if (240 <=? x) && (x <=? 244) then
        match p1 with
        | c1 :: c2 :: c3 :: p4 =>
            utf8_in (if x =? 240 then 144 else 128) (if x =? 244 then 143 else 191) c1
            && utf8_cont c2 && utf8_cont c3 && utf8_Valid p4
        | _ => false
        end
      else false
  end.

(** [[]byte(s)] and [string(b)] *)
Definition bytes_of_string (s : string) : bytes := list_byte_of_string s.
Definition string_of_bytes (b : bytes) : string := string_of_list_byte b.

(** The field coders of a proto3 message without presence. *)
Definition wiretag (num typ : Z) : Z := num * 8 + typ.

Definition appendStringNoZeroValidateUTF8 (num : Z) (v : string) (b : bytes)
  : error + bytes :=
  let p := bytes_of_string v in
  if len p =? 0 then inr b
  else if utf8_Valid p then
    inr (b ++ AppendVarint (wiretag num BytesType) ++ AppendVarint (uint64 (len p)) ++ p)
  else inl (proto_err "string field contains invalid UTF-8").

Definition appendInt64NoZero (num : Z) (v : Z) (b : bytes) : bytes :=
  if v =? 0 then b
  else b ++ AppendVarint (wiretag num VarintType) ++ AppendVarint (uint64 v).

(** [proto.Marshal(m)]: the fields in the order of their numbers. *)
Definition proto_Marshal (m : BlockInfo) : error + bytes :=
  match appendStringNoZeroValidateUTF8 1 (ChainId m) [] with
  | inl e => inl e
  | inr b1 =>
  match appendStringNoZeroValidateUTF8 2 (Env m) b1 with
  | inl e => inl e
  | inr b2 =>
  let b3 := appendInt64NoZero 3 (BlockNum m) b2 in
  match appendStringNoZeroValidateUTF8 4 (BlockHash m) b3 with
  | inl e => inl e
  | inr b4 =>
  let b5 := appendInt64NoZero 5 (MsgOffset m) b4 in
  let b6 := appendInt64NoZero 6 (BlockType m) b5 in
  inr (appendInt64NoZero 7 (BlockSize m) b6)
  end end end.

(** What a field coder of the decoder answers: the field is set, the wire
    type is not the field's (the value is skipped as unknown), or the
    input is malformed. *)
Inductive field_result : Type :=
| FieldSet (m : BlockInfo) (rest : bytes)
| FieldUnknown
| FieldError.

Definition consumeStringValidateUTF8 (set : string -> BlockInfo -> BlockInfo)
    (wtyp : Z) (b : bytes) (m : BlockInfo) : field_result :=
  if negb (wtyp =? BytesType) then FieldUnknown
  else match ConsumeBytes b with
       | None => FieldError
       | Some (v, rest) =>
           if utf8_Valid v then FieldSet (set (string_of_bytes v) m) rest
           else FieldError
       end.

Definition consumeVarintField (conv : Z -> Z) (set : Z -> BlockInfo -> BlockInfo)
    (wtyp : Z) (b : bytes) (m : BlockInfo) : field_result :=
  if negb (wtyp =? VarintType) then FieldUnknown
  else match ConsumeVarint b with
       | None => FieldError
       | Some (v, rest) => FieldSet (set (conv v) m) rest
       end.

Definition unmarshal_field (num wtyp : Z) (b : bytes) (m : BlockInfo) : field_result :=
  match num with
  | 1 => consumeStringValidateUTF8 with_ChainId wtyp b m
  | 2 => consumeStringValidateUTF8 with_Env wtyp b m
  | 3 => consumeVarintField int64 with_BlockNum wtyp b m
  | 4 => consumeStringValidateUTF8 with_BlockHash wtyp b m
  | 5 => consumeVarintField int64 with_MsgOffset wtyp b m
  | 6 => consumeVarintField int32 with_BlockType wtyp b m
  | 7 => consumeVarintField int64 with_BlockSize wtyp b m
  | _ => FieldUnknown
  end.

(** The decoder's loop over the fields; every round consumes a tag, so
    [fuel] bounds the rounds by the number of bytes. *)
Fixpoint unmarshal_fields (fuel : nat) (b : bytes) (m : BlockInfo) : option BlockInfo :=
  match b with
  | [] => Some m
  | _ :: _ =>
      match fuel with
      | O => None
      | S fuel' =>
          match ConsumeVarint b with
          | None => None
          | Some (tag, b1) =>
              let num := tag / 8 in
              let wtyp := tag mod 8 in
              if (num <? MinValidNumber) || (MaxValidNumber <? num) then None
              else if wtyp =? EndGroupType then None
              else
                match unmarshal_field num wtyp b1 m with
                | FieldSet m' b2 => unmarshal_fields fuel' b2 m'
                | FieldError => None
                | FieldUnknown =>
                    match ConsumeFieldValue num wtyp b1 with
                    | None => None
                    | Some b2 => unmarshal_fields fuel' b2 m
                    end
                end
          end
      end
  end.

(** [proto.Unmarshal(b, m)]: [m] is reset, then the fields of [b] are
    merged into it. *)
Definition proto_Unmarshal (b : bytes) (m : BlockInfo) : error + BlockInfo :=
  match unmarshal_fields (length b) b BlockInfo_zero with
  | Some m' => inr m'
  | None => inl (proto_err "cannot parse invalid wire-format data")
  end.

(** ** The store engine *)

(** Modelled from the spec: the declarations of the interfaces [DB] and
    [Batch], of [BatchWithID] and of [NewLDB] are in files of the package
    that are not part of the sources at hand. The spec gives their contract:
    [get(key) -> bytes | not-found], [newBatch() -> Batch],
    [Batch.put(key, value)], [Batch.dump() -> bytes],
    [Batch.load(bytes) -> error], [Batch.write() -> error] (durable on
    success). The pool never looks inside a store or a batch, so the engine
    is a parameter: [Store] is the content of one opened store, [Ops] the
    operations pending in a batch. A write that fails leaves the store as it
    was. *)
Class Engine : Type := {
  Store : Type;
  Ops : Type;
  (** [db.Get(key)] *)
  Store_Get : Store -> bytes -> engine_error + bytes;
  (** the operations of the batch [db.NewBatch()] returns: none *)
  Ops_new : Ops;
  (** [batch.Put(key, value)] *)
  Ops_Put : Ops -> bytes -> bytes -> engine_error + Ops;
  (** [batch.Dump()] *)
  Ops_Dump : Ops -> bytes;
  (** [batch.Load(data)] *)
  Ops_Load : Ops -> bytes -> engine_error + Ops;
  (** [batch.Write()], on the content of the batch's store *)
  Store_Write : Store -> Ops -> engine_error + Store;
  (** what [NewLDB(path)] finds at [path], given the stores already open *)
  Store_Open : string -> gmap positive Store -> engine_error + Store;
}.

(** A non-nil value of the interface [DB] is a reference to an opened store;
    [World] holds the content of every opened store. The interface's nil
    value is [None]. *)
Abbreviation handle := positive.
Abbreviation World := (gmap positive Store).

Section Pool.
Context {E : Engine}.

(** Modelled from the spec: the interface [Batch] is declared outside the
    sources at hand. A value of it is the store it was created from and
    the operations pending in it. *)
Record Batch : Type := {
  Batch_db : handle;
  Batch_ops : Ops;
}.

(** Modelled from the spec: [BatchWithID] is declared outside the sources at
    hand; it pairs a batch with the identifier of its store, which
    [Marshal] converts with [int32(item.ID)]. *)
Record BatchWithID : Type := {
  ID : Z;
  B : Batch;
}.

(** The methods of [DB] and [Batch], through the engine. [db.NewBatch()]:
    a method call on the nil interface value panics ([None]). *)
Definition DB_NewBatch (db : option handle) : option Batch :=
  match db with
  | None => None
  | Some h => Some {| Batch_db := h; Batch_ops := Ops_new |}
  end.

Definition Batch_Put (b : Batch) (key value : bytes) : engine_error + Batch :=
  match Ops_Put (Batch_ops b) key value with
  | inl e => inl e
  | inr ops => inr {| Batch_db := Batch_db b; Batch_ops := ops |}
  end.

Definition Batch_Dump (b : Batch) : bytes := Ops_Dump (Batch_ops b).

Definition Batch_Load (b : Batch) (data : bytes) : engine_error + Batch :=
  match Ops_Load (Batch_ops b) data with
  | inl e => inl e
  | inr ops => inr {| Batch_db := Batch_db b; Batch_ops := ops |}
  end.

(** [batch.Write()]. Every reference the program holds is to an opened
    store; a reference to none is treated like the nil value. *)
Definition Batch_Write (w : World) (b : Batch) : World * outcome (option error) :=
  match w !! Batch_db b with
  | None => (w, Panics nil_dereference)
  | Some s =>
      match Store_Write s (Batch_ops b) with
      | inl e => (w, Returns (Some (leveldb_err e)))
      | inr s' => (<[Batch_db b := s']> w, Returns None)
      end
  end.

(** [db.Get(key)] *)
Definition DB_Get (w : World) (db : option handle) (key : bytes)
  : outcome (engine_error + bytes) :=
  match db with
  | None => Panics nil_dereference
  | Some h =>
      match w !! h with
      | None => Panics nil_dereference
      | Some s => Returns (Store_Get s key)
      end
  end.

(** Modelled from the spec: [NewLDB] is defined outside the sources at
    hand; it opens a new store instance at the path. Here: the store the
    engine finds at [path] under a new reference, or the engine's error. *)
Definition NewLDB (w : World) (path : string) : engine_error + (handle * World) :=
  match Store_Open path w with
  | inl e => inl e
  | inr s => let h := fresh (dom w) in inr (h, <[h := s]> w)
  end.

(** ** The pool *)

Definition LastBlockInfo : string := "rpl_last_bk".

Record dbWrap : Type := {
  dbWrap_id : Z;
  dbWrap_db : option handle;
  dbWrap_path : string;
  dbWrap_dbType : string;
  dbWrap_isMeta : bool;
}.

(** The zero value [dbWrap{}], which indexing the map at a missing key gives. *)
Definition dbWrap_zero : dbWrap :=
  {| dbWrap_id := 0; dbWrap_db := None; dbWrap_path := "";
     dbWrap_dbType := ""; dbWrap_isMeta := false |}.

Record DBPool : Type := {
  dbs : gmap Z dbWrap;
  metaDBID : Z;
}.

(** The expression [p.dbs[id]] with one result. *)
Definition dbs_index (p : DBPool) (id : Z) : dbWrap :=
  default dbWrap_zero (dbs p !! id).

Definition NewDBPool : DBPool :=
  {| dbs := ∅; metaDBID := MinInt32 |}.

(** [Register]: the pool it leaves, and whether it returned or panicked. *)
Definition Register (p : DBPool) (id : Z) (path dbType : string)
    (db : option handle) (isMetaDB : bool) : DBPool * outcome unit :=
  let p1 :=
    {| dbs := <[id := {| dbWrap_id := id; dbWrap_db := db; dbWrap_path := path;
                         dbWrap_dbType := dbType; dbWrap_isMeta := isMetaDB |}]> (dbs p);
       metaDBID := metaDBID p |} in
  if isMetaDB && negb (metaDBID p1 =? MinInt32) then
    (p1, Panics "meta db already registered")
  else if isMetaDB then
    ({| dbs := dbs p1; metaDBID := id |}, Returns tt)
  else (p1, Returns tt).

(** The loop of [Open] over [p.dbs]: whether some handle has the path. *)
Definition path_is_open (p : DBPool) (path : string) : bool :=
  existsb (fun kv => bool_decide (dbWrap_path (snd kv) = path)) (map_to_list (dbs p)).

Definition Open (p : DBPool) (w : World) (dbInfo : DBInfo)
  : DBPool * World * option error :=
  match dbs p !! DBInfo_Id dbInfo with
  | Some _ => (p, w, None)
  | None =>
      if bool_decide (DbType dbInfo = "leveldb") then
        if path_is_open p (DbPath dbInfo) then (p, w, None)
        else
          match NewLDB w (DbPath dbInfo) with
          | inl e => (p, w, Some (leveldb_err e))
          | inr (db, w1) =>
              let p1 :=
                {| dbs := <[DBInfo_Id dbInfo :=
                             {| dbWrap_id := DBInfo_Id dbInfo; dbWrap_db := Some db;
                                dbWrap_path := DbPath dbInfo;
                                dbWrap_dbType := DbType dbInfo;
                                dbWrap_isMeta := IsMeta dbInfo |}]> (dbs p);
                   metaDBID := metaDBID p |} in
              if IsMeta dbInfo && negb (metaDBID p1 =? MinInt32) then
                (p1, w1, Some ErrMetaDBAlreadyRegistered)
              else if IsMeta dbInfo then
                ({| dbs := dbs p1; metaDBID := DBInfo_Id dbInfo |}, w1, None)
              else (p1, w1, None)
          end
      else (p, w, None)
  end.

(** The record [GetBlockInfo] starts from. *)
Definition header_init : BlockInfo :=
  {| ChainId := ""; Env := ""; BlockNum := -1; BlockHash := "";
     MsgOffset := -1; BlockType := BlockInfo_UNKNOWN; BlockSize := 0 |}.

(** [GetBlockInfo]: the pointer it returns ([None] is nil) and the error.
    [proto.Unmarshal] resets the message it is given before it decodes. *)
Definition GetBlockInfo (p : DBPool) (w : World)
  : outcome (option BlockInfo * option error) :=
  if metaDBID p =? MinInt32 then Returns (None, Some ErrNoMetaDBRegistered)
  else
    let db := dbs_index p (metaDBID p) in
    match DB_Get w (dbWrap_db db) (bytes_of_string LastBlockInfo) with
    | Panics msg => Panics msg
    | Returns (inl e) =>
        if bool_decide (e = ErrNotFound) then Returns (Some header_init, None)
        else Returns (None, Some (leveldb_err e))
    | Returns (inr lastMsgHeadBuf) =>
        if len lastMsgHeadBuf =? 0 then Returns (Some header_init, None)
        else
          match proto_Unmarshal lastMsgHeadBuf header_init with
          | inl _ => Returns (None, None)
          | inr header => Returns (Some header, None)
          end
    end.

Definition GetDB (p : DBPool) (id : Z) : option handle * option error :=
  match dbs p !! id with
  | None => (None, Some (leveldb_err ErrNotFound))
  | Some dbWrap => (dbWrap_db dbWrap, None)
  end.

Definition Marshal (p : DBPool) (batchs : list BatchWithID)
  : list BatchItem * option error :=
  (fold_left
     (fun batchItems item =>
        batchItems ++ [{| BatchItem_Id := int32 (ID item); Data := Batch_Dump (B item) |}])
     batchs [],
   None).

Definition WriteBlockInfo (p : DBPool) (w : World) (header : BlockInfo)
  : World * outcome (option error) :=
  if metaDBID p =? MinInt32 then (w, Returns (Some ErrNoMetaDBRegistered))
  else
    match proto_Marshal header with
    | inl e => (w, Returns (Some e))
    | inr lastMsgHeadBuf =>
        match DB_NewBatch (dbWrap_db (dbs_index p (metaDBID p))) with
        | None => (w, Panics nil_dereference)
        | Some metaBatch =>
            match Batch_Put metaBatch (bytes_of_string LastBlockInfo) lastMsgHeadBuf with
            | inl e => (w, Returns (Some (leveldb_err e)))
            | inr metaBatch1 => Batch_Write w metaBatch1
            end
        end
    end.

Fixpoint WriteBatchs (p : DBPool) (w : World) (batchs : list BatchWithID)
  : World * outcome (option error) :=
  match batchs with
  | [] => (w, Returns None)
  | item :: rest =>
      match Batch_Write w (B item) with
      | (w1, Returns None) => WriteBatchs p w1 rest
      | (w1, r) => (w1, r)
      end
  end.

Fixpoint WriteBatchItems (p : DBPool) (w : World) (items : list BatchItem)
  : World * outcome (option error) :=
  match items with
  | [] => (w, Returns None)
  | item :: rest =>
      let db := dbs_index p (BatchItem_Id item) in
      match DB_NewBatch (dbWrap_db db) with
      | None => (w, Panics nil_dereference)
      | Some batch =>
          match Batch_Load batch (Data item) with
          | inl e => (w, Returns (Some (leveldb_err e)))
          | inr batch1 =>
              match Batch_Write w batch1 with
              | (w1, Returns None) => WriteBatchItems p w1 rest
              | (w1, r) => (w1, r)
              end
          end
      end
  end.

End Pool.

(** ** An engine in memory

    A small engine that meets the contract above, on which the pool can be
    run: a store is a list of key and value pairs and may be closed, in
    which case every access fails; a batch holds its puts in order and is
    dumped as a sequence of records of the form kind, key length, key,
    value length, value. *)

Record MemStore : Type := {
  mem_closed : bool;
  mem_data : list (bytes * bytes);
}.

Definition mem_lookup (data : list (bytes * bytes)) (key : bytes) : option bytes :=
  snd <$> find (fun kv => bool_decide (fst kv = key)) data.

Definition mem_insert (key value : bytes) (data : list (bytes * bytes))
  : list (bytes * bytes) :=
  (key, value) :: filter (fun kv => fst kv ≠ key) data.

Definition mem_Get (s : MemStore) (key : bytes) : engine_error + bytes :=
  if mem_closed s then inl (ErrEngine "leveldb: closed")
  else match mem_lookup (mem_data s) key with
       | Some v => inr v
       | None => inl ErrNotFound
       end.

Definition mem_Put (ops : list (bytes * bytes)) (key value : bytes)
  : engine_error + list (bytes * bytes) :=
  inr (ops ++ [(key, value)]).

Definition mem_Dump (ops : list (bytes * bytes)) : bytes :=
  flat_map (fun kv => Byte.x01 :: AppendVarint (len (fst kv)) ++ fst kv
                      ++ AppendVarint (len (snd kv)) ++ snd kv) ops.

Fixpoint mem_parse (fuel : nat) (data : bytes) : option (list (bytes * bytes)) :=
  match data with
  | [] => Some []
  | kind :: data1 =>
      match fuel with
      | O => None
      | S fuel' =>
          if bool_decide (kind = Byte.x01) then
            match ConsumeBytes data1 with
            | None => None
            | Some (key, data2) =>
                match ConsumeBytes data2 with
                | None => None
                | Some (value, data3) =>
                    cons (key, value) <$> mem_parse fuel' data3
                end
            end
          else None
      end
  end.

Definition mem_Load (ops : list (bytes * bytes)) (data : bytes)
  : engine_error + list (bytes * bytes) :=
  match mem_parse (length data) data with
  | Some ops' => inr ops'
  | None => inl (ErrEngine "leveldb: corrupted batch")
  end.

Definition mem_Write (s : MemStore) (ops : list (bytes * bytes))
  : engine_error + MemStore :=
  if mem_closed s then inl (ErrEngine "leveldb: closed")
  else inr {| mem_closed := false;
              mem_data := fold_left (fun d kv => mem_insert (fst kv) (snd kv) d)
                            ops (mem_data s) |}.

Definition mem_Open (path : string) (w : gmap positive MemStore)
  : engine_error + MemStore :=
  if bool_decide (path = "") then inl (ErrEngine "leveldb: no such directory")
  else inr {| mem_closed := false; mem_data := [] |}.

Definition memEngine : Engine := {|
  Store := MemStore;
  Ops := list (bytes * bytes);
  Store_Get := mem_Get;
  Ops_new := [];
  Ops_Put := mem_Put;
  Ops_Dump := mem_Dump;
  Ops_Load := mem_Load;
  Store_Write := mem_Write;
  Store_Open := mem_Open;
|}.

(** ** Notions the theorems are stated with *)

(** The bytes one field adds to a message. *)
Definition string_field (num : Z) (v : string) : bytes :=
  if len (bytes_of_string v) =? 0 then []
  else AppendVarint (wiretag num BytesType)
       ++ AppendVarint (uint64 (len (bytes_of_string v))) ++ bytes_of_string v.

Definition varint_field (num : Z) (v : Z) : bytes :=
  if v =? 0 then []
  else AppendVarint (wiretag num VarintType) ++ AppendVarint (uint64 v).

(** [decodes b m r]: the decoder's loop, started on [b] with the message
    [m], ends with [r], whatever the fuel above the length of [b]. *)
Definition decodes (b : bytes) (m r : BlockInfo) : Prop :=
  forall fuel : nat, (length b <= fuel)%nat -> unmarshal_fields fuel b m = Some r.


(** The decoder's check of a field number that is in range. *)
Ltac number_is_valid num :=
  replace (num <? MinValidNumber) with false
    by (symmetry; apply Z.ltb_ge; unfold MinValidNumber; lia);
  replace (MaxValidNumber <? num) with false
    by (symmetry; apply Z.ltb_ge; unfold MaxValidNumber; lia);
  cbn [orb].

Section Notions.
Context {E : Engine}.

(** The contract of a durable write: a value put under a key in a new
    batch is what [Get] finds under the key once the batch is written. *)
Definition write_is_durable : Prop :=
  forall (s s' : Store) (key value : bytes) (ops : Ops),
    Ops_Put Ops_new key value = inr ops ->
    Store_Write s ops = inr s' ->
    Store_Get s' key = inr value.

(** The pool has a metadata store designated, and [s] is its content. *)
Definition meta_store (p : DBPool) (w : World) (s : Store) : Prop :=
  metaDBID p <> MinInt32 /\
  exists (wr : dbWrap) (h : handle),
    dbs p !! metaDBID p = Some wr /\ dbWrap_db wr = Some h /\ w !! h = Some s.

(** The world after the batches were written one after the other, in the
    order of the list, when every one of the writes succeeded. *)
Fixpoint committed (w : World) (batchs : list BatchWithID) : option World :=
  match batchs with
  | [] => Some w
  | item :: rest =>
      match Batch_Write w (B item) with
      | (w1, Returns None) => committed w1 rest
      | _ => None
      end
  end.

(** The same for wire items: each one loaded into a new batch of the
    store registered under its identifier, and written. *)
Fixpoint committed_items (p : DBPool) (w : World) (items : list BatchItem)
  : option World :=
  match items with
  | [] => Some w
  | item :: rest =>
      match dbs p !! BatchItem_Id item with
      | Some {| dbWrap_db := Some h |} =>
          match Ops_Load Ops_new (Data item) with
          | inr ops =>
              match Batch_Write w {| Batch_db := h; Batch_ops := ops |} with
              | (w1, Returns None) => committed_items p w1 rest
              | _ => None
              end
          | inl _ => None
          end
      | _ => None
      end
  end.

(** A batch addressed to a store of the pool: its identifier is an [int32]
    under which the pool holds the store the batch was created from. *)
Definition addressed (p : DBPool) (item : BatchWithID) : Prop :=
  is_int32 (ID item) /\
  exists wr : dbWrap,
    dbs p !! ID item = Some wr /\ dbWrap_db wr = Some (Batch_db (B item)).

(** [Load] into a new batch gives back the operations [Dump] wrote. *)
Definition Load_inverts_Dump (b : Batch) : Prop :=
  Ops_Load Ops_new (Batch_Dump b) = inr (Batch_ops b).

(** The pools a program can build: [NewDBPool], then calls of [Register]
    that return and calls of [Open], whatever they return. *)
Inductive reachable : DBPool -> Prop :=
| reachable_New : reachable NewDBPool
| reachable_Register (p p' : DBPool) (id : Z) (path dbType : string)
    (db : option handle) (isMetaDB : bool) :
    reachable p ->
    Register p id path dbType db isMetaDB = (p', Returns tt) ->
    reachable p'
| reachable_Open (p p' : DBPool) (w w' : World) (dbInfo : DBInfo) (err : option error) :
    reachable p ->
    Open p w dbInfo = (p', w', err) ->
    reachable p'.

(** The pools built in an orderly way: every [Register] is of a new
    identifier and returns, every [Open] returns nil, and no identifier
    is [math.MinInt32]. *)
Inductive orderly : DBPool -> Prop :=
| orderly_New : orderly NewDBPool
| orderly_Register (p p' : DBPool) (id : Z) (path dbType : string)
    (db : option handle) (isMetaDB : bool) :
    orderly p ->
    dbs p !! id = None -> id <> MinInt32 ->
    Register p id path dbType db isMetaDB = (p', Returns tt) ->
    orderly p'
| orderly_Open (p p' : DBPool) (w w' : World) (dbInfo : DBInfo) :
    orderly p ->
    DBInfo_Id dbInfo <> MinInt32 ->
    Open p w dbInfo = (p', w', None) ->
    orderly p'.

End Notions.

(** Every flagged handle is the one under the designated identifier. *)
Definition meta_is_designated (p : DBPool) : Prop :=
  forall (i : Z) (wi : dbWrap),
    dbs p !! i = Some wi -> dbWrap_isMeta wi = true ->
    i = metaDBID p /\ i <> MinInt32.

(** The two halves of the registry's invariant. *)
Definition at_most_one_meta (p : DBPool) : Prop :=
  forall (i j : Z) (wi wj : dbWrap),
    dbs p !! i = Some wi -> dbs p !! j = Some wj ->
    dbWrap_isMeta wi = true -> dbWrap_isMeta wj = true -> i = j.

Definition designated_is_meta (p : DBPool) : Prop :=
  metaDBID p <> MinInt32 ->
  exists wr : dbWrap, dbs p !! metaDBID p = Some wr /\ dbWrap_isMeta wr = true.

(** ** A pool to run

    On the engine in memory: the metadata store under identifier 1, a
    store of chain data under 3, and under 4 a store that was closed. *)

Definition mem_empty : MemStore := {| mem_closed := false; mem_data := [] |}.

Definition ex_world : gmap positive MemStore :=
  {[ 1%positive := mem_empty;
     2%positive := mem_empty;
     3%positive := {| mem_closed := true; mem_data := [] |} ]}.

Definition ex_pool_meta : DBPool :=
  fst (Register NewDBPool 1 "/data/meta" "leveldb" (Some 1%positive) true).
Definition ex_pool_chain : DBPool :=
  fst (Register ex_pool_meta 3 "/data/chain" "leveldb" (Some 2%positive) false).
Definition ex_pool : DBPool :=
  fst (Register ex_pool_chain 4 "/data/state" "leveldb" (Some 3%positive) false).

Definition ex_header : BlockInfo :=
  {| ChainId := "eth"; Env := "prod"; BlockNum := 42; BlockHash := "0xabc";
     MsgOffset := 7; BlockType := BlockInfo_DATA; BlockSize := 1024 |}.

(** The metadata store with bytes under the key that are no message: a
    varint that does not end. *)
Definition ex_world_corrupt : gmap positive MemStore :=
  <[ 1%positive := {| mem_closed := false;
                      mem_data := [(bytes_of_string LastBlockInfo, [Byte.xff])] |} ]>
    ex_world.

(** Batches on the chain store and on the closed store. *)
Definition ex_batch (h : positive) (key value : string) : Batch (E := memEngine) :=
  @Build_Batch memEngine h [(bytes_of_string key, bytes_of_string value)].

Definition ex_batchs : list (BatchWithID (E := memEngine)) :=
  [ {| ID := 3; B := ex_batch 2 "k1" "v1" |};
    {| ID := 4; B := ex_batch 3 "k2" "v2" |};
    {| ID := 3; B := ex_batch 2 "k3" "v3" |} ].

(** Three wire items; the second names an identifier the pool does not hold. *)
Definition ex_items : list BatchItem :=
  [ {| BatchItem_Id := 3; Data := Batch_Dump (ex_batch 2 "k1" "v1") |};
    {| BatchItem_Id := 9; Data := Batch_Dump (ex_batch 2 "k2" "v2") |};
    {| BatchItem_Id := 3; Data := Batch_Dump (ex_batch 2 "k3" "v3") |} ].

(** The stores once the batch of "k1" is written to the chain store. *)
Definition ex_world_k1 : gmap positive MemStore :=
  <[ 2%positive := {| mem_closed := false;
                      mem_data := [(bytes_of_string "k1", bytes_of_string "v1")] |} ]>
    ex_world.

(** A descriptor flagged as metadata, at a new identifier and a new path. *)
Definition ex_second_meta : DBInfo :=
  {| DBInfo_Id := 8; DbType := "leveldb"; DbPath := "/data/meta2"; IsMeta := true |}.

(** The pool after [Open] of that descriptor, and the pool after the
    metadata store is registered once more, without the flag. *)
Definition ex_pool_second_meta : DBPool :=
  fst (fst (Open (E := memEngine) ex_pool ex_world ex_second_meta)).
Definition ex_pool_overwritten : DBPool :=
  fst (Register ex_pool 1 "/data/meta" "leveldb" (Some 1%positive) false).

(** ** The rest of the pool and of the messages *)

Record DBInfoList : Type := {
  DbInfos : list DBInfo;
}.

(** Go leaves the order in which [range] visits a map open. The methods
    that range over [p.dbs] and whose result depends on the order take it
    as an argument: [range_order p order] says that [order] lists the
    entries of [p.dbs], each one once. *)
Definition range_order (p : DBPool) (order : list (Z * dbWrap)) : Prop :=
  order ≡ₚ map_to_list (dbs p).

(** [GetDBInfo]: the pointer it returns ([None] is nil) and the error. *)
Definition GetDBInfo (p : DBPool) (order : list (Z * dbWrap))
  : option DBInfoList * option error :=
  if metaDBID p =? MinInt32 then (None, Some ErrNoMetaDBRegistered)
  else
    (Some {| DbInfos :=
               fold_left
                 (fun infos kv =>
                    infos ++ [{| DBInfo_Id := fst kv;
                                 DbType := dbWrap_dbType (snd kv);
                                 DbPath := dbWrap_path (snd kv);
                                 IsMeta := dbWrap_isMeta (snd kv) |}])
                 order [] |},
     None).

(** [GetDBID]: the [id] field of the first handle visited that has the
    path, or -1 and the not-found error. *)
Fixpoint GetDBID_range (order : list (Z * dbWrap)) (path : string) : Z * option error :=
  match order with
  | [] => (-1, Some (leveldb_err ErrNotFound))
  | (_, db) :: rest =>
      if bool_decide (dbWrap_path db = path) then (dbWrap_id db, None)
      else GetDBID_range rest path
  end.

Definition GetDBID (p : DBPool) (order : list (Z * dbWrap)) (path : string)
  : Z * option error :=
  GetDBID_range order path.

(** The getters of [BlockInfo]; the receiver may be the nil pointer. *)
Definition GetChainId (x : option BlockInfo) : string :=
  match x with Some m => ChainId m | None => "" end.
Definition GetEnv (x : option BlockInfo) : string :=
  match x with Some m => Env m | None => "" end.
Definition GetBlockNum (x : option BlockInfo) : Z :=
  match x with Some m => BlockNum m | None => 0 end.
Definition GetBlockHash (x : option BlockInfo) : string :=
  match x with Some m => BlockHash m | None => "" end.
Definition GetMsgOffset (x : option BlockInfo) : Z :=
  match x with Some m => MsgOffset m | None => 0 end.
Definition GetBlockType (x : option BlockInfo) : Z :=
  match x with Some m => BlockType m | None => BlockInfo_UNKNOWN end.
Definition GetBlockSize (x : option BlockInfo) : Z :=
  match x with Some m => BlockSize m | None => 0 end.

(** The descriptor [GetDBInfo] writes for an entry of the map. *)
Definition descriptor_of (kv : Z * dbWrap) : DBInfo :=
  {| DBInfo_Id := fst kv; DbType := dbWrap_dbType (snd kv);
     DbPath := dbWrap_path (snd kv); IsMeta := dbWrap_isMeta (snd kv) |}.

(** More to run the pool on: a second checkpoint, a checkpoint whose chain
    identifier is the one byte 0xff, which is not UTF-8, the order in which
    the entries of the pool are visited, a descriptor of a store not yet
    open, and wire items of which the second holds no batch. *)
Definition ex_header_next : BlockInfo :=
  {| ChainId := "eth"; Env := "prod"; BlockNum := 43; BlockHash := "0xdef";
     MsgOffset := 8; BlockType := BlockInfo_HEADER; BlockSize := 0 |}.

Definition ex_header_bad : BlockInfo :=
  {| ChainId := String (Ascii.ascii_of_N 255) EmptyString; Env := "prod";
     BlockNum := 42; BlockHash := ""; MsgOffset := 7;
     BlockType := BlockInfo_DATA; BlockSize := 0 |}.

Definition ex_order : list (Z * dbWrap) := map_to_list (dbs ex_pool).

Definition ex_new_store : DBInfo :=
  {| DBInfo_Id := 7; DbType := "leveldb"; DbPath := "/data/new"; IsMeta := false |}.

Definition ex_items_bad : list BatchItem :=
  [ {| BatchItem_Id := 3; Data := Batch_Dump (ex_batch 2 "k1" "v1") |};
    {| BatchItem_Id := 3; Data := [Byte.x02] |};
    {| BatchItem_Id := 3; Data := Batch_Dump (ex_batch 2 "k3" "v3") |} ].

(** * Theory *)

(** ** Bytes and varints *)

Lemma Z_of_byte_of_Z (z : Z) : Z_of_byte (byte_of_Z z) = z mod 256.
Proof.
  unfold Z_of_byte, byte_of_Z.
  assert (Hr : 0 <= z mod 256 < 256) by (apply Z.mod_pos_bound; lia).
  destruct (Byte.of_N (Z.to_N (z mod 256))) as [c|] eqn:Hc.
  - apply Byte.to_of_N in Hc. rewrite Hc. lia.
  - apply Byte.of_N_None_iff in Hc. lia.
Qed.

Lemma Z_of_byte_of_Z_small (z : Z) : 0 <= z < 256 -> Z_of_byte (byte_of_Z z) = z.
Proof. intros. rewrite Z_of_byte_of_Z. apply Z.mod_small. lia. Qed.

Lemma ConsumeVarint_loop_AppendVarint_loop (n : nat) :
  forall (v : Z) (rest : bytes),
    (0 < n)%nat -> 0 <= v < 2 * 128 ^ Z.of_nat (n - 1) ->
    ConsumeVarint_loop n (AppendVarint_loop n v ++ rest) = Some (v, rest).
Proof.
  induction n as [|n IH]; intros v rest Hn Hv; [lia|].
  replace (S n - 1)%nat with n in Hv by lia.
  cbn [AppendVarint_loop].
  destruct (v <? 128) eqn:Hlt.
  - apply Z.ltb_lt in Hlt.
    cbn [app ConsumeVarint_loop].
    rewrite Z_of_byte_of_Z_small by lia.
    apply Z.ltb_lt in Hlt as ->.
    destruct n as [|n']; [|reflexivity].
    change (Z.of_nat 0) with 0 in Hv. rewrite Z.pow_0_r in Hv.
    assert (Hv2 : (v <? 2) = true) by (apply Z.ltb_lt; lia).
    now rewrite Hv2.
  - apply Z.ltb_ge in Hlt.
    cbn [app ConsumeVarint_loop].
    assert (Hm : 0 <= v mod 128 < 128) by (apply Z.mod_pos_bound; lia).
    rewrite Z_of_byte_of_Z_small by lia.
    assert (Hge : (v mod 128 + 128 <? 128) = false) by (apply Z.ltb_ge; lia).
    rewrite Hge.
    destruct n as [|n'].
    { change (Z.of_nat 0) with 0 in Hv. rewrite Z.pow_0_r in Hv. lia. }
    rewrite IH.
    + f_equal. f_equal. pose proof (Z.div_mod v 128). lia.
    + lia.
    + replace (S n' - 1)%nat with n' by lia.
      replace (Z.of_nat (S n')) with (Z.of_nat n' + 1) in Hv by lia.
      rewrite Z.pow_add_r, Z.pow_1_r in Hv by lia.
      split; [apply Z.div_pos; lia|].
      apply Z.div_lt_upper_bound; lia.
Qed.

Lemma ConsumeVarint_AppendVarint (v : Z) (rest : bytes) :
  0 <= v < 2 ^ 64 ->
  ConsumeVarint (AppendVarint v ++ rest) = Some (v, rest).
Proof.
  intros Hv. unfold ConsumeVarint, AppendVarint.
  apply ConsumeVarint_loop_AppendVarint_loop; [lia|].
  change (2 * 128 ^ Z.of_nat (10 - 1)) with (2 ^ 64). exact Hv.
Qed.

Lemma len_nonneg {A : Type} (l : list A) : 0 <= len l.
Proof. unfold len. lia. Qed.

Lemma len_app {A : Type} (l1 l2 : list A) : len (l1 ++ l2) = len l1 + len l2.
Proof. unfold len. rewrite length_app. lia. Qed.

Lemma ConsumeBytes_AppendVarint (p rest : bytes) :
  len p < 2 ^ 64 ->
  ConsumeBytes (AppendVarint (uint64 (len p)) ++ p ++ rest) = Some (p, rest).
Proof.
  intros Hp. pose proof (len_nonneg p) as H0.
  unfold ConsumeBytes, uint64. rewrite Z.mod_small by lia.
  rewrite ConsumeVarint_AppendVarint by lia.
  rewrite len_app.
  assert (Hlt : (len p + len rest <? len p) = false)
    by (apply Z.ltb_ge; pose proof (len_nonneg rest); lia).
  rewrite Hlt. unfold len. rewrite Nat2Z.id.
  rewrite take_app_length, drop_app_length. reflexivity.
Qed.

(** ** The wire format: what is written is read back *)

Lemma appendString_inr (num : Z) (v : string) (b b' : bytes) :
  appendStringNoZeroValidateUTF8 num v b = inr b' ->
  b' = b ++ string_field num v /\
  (v = "" \/ utf8_Valid (bytes_of_string v) = true).
Proof.
  unfold appendStringNoZeroValidateUTF8, string_field.
  destruct (len (bytes_of_string v) =? 0) eqn:Hz.
  - intros [= <-]. rewrite app_nil_r. split; [reflexivity|left].
    apply Z.eqb_eq in Hz. destruct v; [reflexivity|]. discriminate Hz.
  - destruct (utf8_Valid (bytes_of_string v)); [|discriminate].
    intros [= <-]. split; [reflexivity|now right].
Qed.

Lemma appendInt64_eq (num v : Z) (b : bytes) :
  appendInt64NoZero num v b = b ++ varint_field num v.
Proof.
  unfold appendInt64NoZero, varint_field.
  destruct (v =? 0); [now rewrite app_nil_r|reflexivity].
Qed.

Lemma proto_Marshal_inr (m : BlockInfo) (b : bytes) :
  proto_Marshal m = inr b ->
  b = string_field 1 (ChainId m) ++ string_field 2 (Env m)
      ++ varint_field 3 (BlockNum m) ++ string_field 4 (BlockHash m)
      ++ varint_field 5 (MsgOffset m) ++ varint_field 6 (BlockType m)
      ++ varint_field 7 (BlockSize m) ++ []
  /\ (ChainId m = "" \/ utf8_Valid (bytes_of_string (ChainId m)) = true)
  /\ (Env m = "" \/ utf8_Valid (bytes_of_string (Env m)) = true)
  /\ (BlockHash m = "" \/ utf8_Valid (bytes_of_string (BlockHash m)) = true).
Proof.
  unfold proto_Marshal.
  destruct (appendStringNoZeroValidateUTF8 1 _ _) as [|b1] eqn:H1; [discriminate|].
  destruct (appendStringNoZeroValidateUTF8 2 _ _) as [|b2] eqn:H2; [discriminate|].
  destruct (appendStringNoZeroValidateUTF8 4 _ _) as [|b4] eqn:H4; [discriminate|].
  intros [= <-].
  apply appendString_inr in H1 as [-> V1].
  apply appendString_inr in H2 as [-> V2].
  apply appendString_inr in H4 as [-> V4].
  rewrite !appendInt64_eq. cbn [app]. rewrite !app_nil_r, <- !app_assoc.
  auto.
Qed.

Lemma unmarshal_fields_step (fuel : nat) (b b1 : bytes) (tag : Z) (m : BlockInfo) :
  ConsumeVarint b = Some (tag, b1) ->
  unmarshal_fields (S fuel) b m =
    if (tag / 8 <? MinValidNumber) || (MaxValidNumber <? tag / 8) then None
    else if tag mod 8 =? EndGroupType then None
    else
      match unmarshal_field (tag / 8) (tag mod 8) b1 m with
      | FieldSet m' b2 => unmarshal_fields fuel b2 m'
      | FieldError => None
      | FieldUnknown =>
          match ConsumeFieldValue (tag / 8) (tag mod 8) b1 with
          | None => None
          | Some b2 => unmarshal_fields fuel b2 m
          end
      end.
Proof.
  intros Hc. destruct b as [|c b']; [discriminate Hc|].
  cbn [unmarshal_fields]. rewrite Hc. reflexivity.
Qed.

Lemma AppendVarint_length (v : Z) : (1 <= length (AppendVarint v))%nat.
Proof.
  unfold AppendVarint. cbn [AppendVarint_loop].
  destruct (v <? 128); cbn [length]; lia.
Qed.

Lemma decodes_nil (m : BlockInfo) : decodes [] m m.
Proof. intros fuel _. destruct fuel; reflexivity. Qed.

Lemma string_of_bytes_of_string (s : string) : string_of_bytes (bytes_of_string s) = s.
Proof. apply string_of_list_byte_of_string. Qed.

Lemma bytes_of_string_length (s : string) :
  length (bytes_of_string s) = String.length s.
Proof.
  unfold bytes_of_string, list_byte_of_string.
  induction s as [|c s IH]; [reflexivity|]. cbn. now rewrite IH.
Qed.

Lemma len_bytes_of_string_0 (s : string) : len (bytes_of_string s) = 0 -> s = "".
Proof.
  unfold len. rewrite bytes_of_string_length. destruct s; [reflexivity|]. cbn. lia.
Qed.

Lemma wiretag_div (num typ : Z) : 0 <= typ < 8 -> wiretag num typ / 8 = num.
Proof. intros. unfold wiretag. symmetry. apply Z.div_unique with typ; lia. Qed.

Lemma wiretag_mod (num typ : Z) : 0 <= typ < 8 -> wiretag num typ mod 8 = typ.
Proof. intros. unfold wiretag. symmetry. apply Z.mod_unique with num; lia. Qed.

Lemma decodes_string_field (num : Z) (set : string -> BlockInfo -> BlockInfo)
    (v : string) (rest : bytes) (m r : BlockInfo) :
  (forall b m', unmarshal_field num BytesType b m'
                = consumeStringValidateUTF8 set BytesType b m') ->
  MinValidNumber <= num <= MaxValidNumber ->
  v = "" \/ utf8_Valid (bytes_of_string v) = true ->
  Z.of_nat (String.length v) < 2 ^ 63 ->
  decodes rest (if len (bytes_of_string v) =? 0 then m else set v m) r ->
  decodes (string_field num v ++ rest) m r.
Proof.
  intros Hfield Hnum Hvalid Hlen Hrest. unfold string_field.
  destruct (len (bytes_of_string v) =? 0) eqn:Hz; [exact Hrest|].
  assert (Hv : utf8_Valid (bytes_of_string v) = true).
  { destruct Hvalid as [->|]; [discriminate Hz|assumption]. }
  intros fuel Hfuel. rewrite <- !app_assoc in *.
  destruct fuel as [|fuel].
  { rewrite length_app in Hfuel. pose proof (AppendVarint_length (wiretag num BytesType)). lia. }
  unfold MinValidNumber, MaxValidNumber in Hnum.
  erewrite unmarshal_fields_step.
  2:{ apply ConsumeVarint_AppendVarint. unfold wiretag, BytesType. lia. }
  rewrite wiretag_div, wiretag_mod by (unfold BytesType; lia).
  number_is_valid num. change (BytesType =? EndGroupType) with false. cbv iota.
  rewrite Hfield. unfold consumeStringValidateUTF8.
  change (negb (BytesType =? BytesType)) with false. cbv iota.
  rewrite ConsumeBytes_AppendVarint.
  2:{ unfold len. rewrite bytes_of_string_length. lia. }
  rewrite Hv, string_of_bytes_of_string.
  apply Hrest.
  rewrite !length_app in Hfuel.
  pose proof (AppendVarint_length (wiretag num BytesType)). lia.
Qed.

Lemma decodes_varint_field (num : Z) (conv : Z -> Z) (set : Z -> BlockInfo -> BlockInfo)
    (v : Z) (rest : bytes) (m r : BlockInfo) :
  (forall b m', unmarshal_field num VarintType b m'
                = consumeVarintField conv set VarintType b m') ->
  MinValidNumber <= num <= MaxValidNumber ->
  conv (uint64 v) = v ->
  decodes rest (if v =? 0 then m else set v m) r ->
  decodes (varint_field num v ++ rest) m r.
Proof.
  intros Hfield Hnum Hconv Hrest. unfold varint_field.
  destruct (v =? 0) eqn:Hz; [exact Hrest|].
  intros fuel Hfuel. rewrite <- !app_assoc in *.
  destruct fuel as [|fuel].
  { rewrite length_app in Hfuel. pose proof (AppendVarint_length (wiretag num VarintType)). lia. }
  unfold MinValidNumber, MaxValidNumber in Hnum.
  erewrite unmarshal_fields_step.
  2:{ apply ConsumeVarint_AppendVarint. unfold wiretag, VarintType. lia. }
  rewrite wiretag_div, wiretag_mod by (unfold VarintType; lia).
  number_is_valid num. change (VarintType =? EndGroupType) with false. cbv iota.
  rewrite Hfield. unfold consumeVarintField.
  change (negb (VarintType =? VarintType)) with false. cbv iota.
  rewrite ConsumeVarint_AppendVarint by (unfold uint64; apply Z.mod_pos_bound; lia).
  rewrite Hconv.
  apply Hrest.
  rewrite !length_app in Hfuel.
  pose proof (AppendVarint_length (wiretag num VarintType)). lia.
Qed.

Lemma int64_uint64 (v : Z) : is_int64 v -> int64 (uint64 v) = v.
Proof.
  unfold is_int64, int64, uint64. intros H.
  rewrite Zplus_mod_idemp_l.
  rewrite Z.mod_small; lia.
Qed.

Lemma int32_uint64 (v : Z) : is_int32 v -> int32 (uint64 v) = v.
Proof.
  unfold is_int32, int32, uint64. intros H.
  assert (Hm : v mod 2 ^ 64 = v \/ v mod 2 ^ 64 = v + 2 ^ 32 * 2 ^ 32).
  { destruct (Z.ltb_spec v 0).
    - right. symmetry. apply Z.mod_unique with (-1); lia.
    - left. apply Z.mod_small. lia. }
  destruct Hm as [-> | ->].
  - rewrite Z.mod_small; lia.
  - replace (v + 2 ^ 32 * 2 ^ 32 + 2 ^ 31) with (v + 2 ^ 31 + 2 ^ 32 * 2 ^ 32) by lia.
    rewrite Z.mod_add by lia.
    rewrite Z.mod_small; lia.
Qed.

Lemma string_field_nil (num : Z) (v : string) : string_field num v = [] -> v = "".
Proof.
  unfold string_field. destruct (len (bytes_of_string v) =? 0) eqn:Hz.
  - intros _. apply len_bytes_of_string_0. now apply Z.eqb_eq.
  - intros H. pose proof (AppendVarint_length (wiretag num BytesType)) as Hl.
    destruct (AppendVarint (wiretag num BytesType)); [cbn in Hl; lia|discriminate H].
Qed.

Lemma varint_field_nil (num v : Z) : varint_field num v = [] -> v = 0.
Proof.
  unfold varint_field. destruct (v =? 0) eqn:Hz.
  - intros _. now apply Z.eqb_eq.
  - intros H. pose proof (AppendVarint_length (wiretag num VarintType)) as Hl.
    destruct (AppendVarint (wiretag num VarintType)); [cbn in Hl; lia|discriminate H].
Qed.

(** [proto.Marshal] writes no byte for the zero value, and only for it. *)
Lemma proto_Marshal_zero : proto_Marshal BlockInfo_zero = inr [].
Proof. reflexivity. Qed.

Lemma proto_Marshal_nil (m : BlockInfo) : proto_Marshal m = inr [] -> m = BlockInfo_zero.
Proof.
  intros H. apply proto_Marshal_inr in H as [H _].
  symmetry in H.
  repeat (apply app_eq_nil in H as [? H]).
  destruct m as [c e n h o t s]. cbn in *.
  repeat match goal with
         | X : string_field _ _ = [] |- _ => apply string_field_nil in X
         | X : varint_field _ _ = [] |- _ => apply varint_field_nil in X
         end.
  subst. reflexivity.
Qed.

(** What [proto.Marshal] writes, [proto.Unmarshal] reads back. *)
Lemma proto_Unmarshal_Marshal (m dst : BlockInfo) (b : bytes) :
  BlockInfo_typed m ->
  proto_Marshal m = inr b ->
  proto_Unmarshal b dst = inr m.
Proof.
  intros (Hn & Ho & Ht & Hs & Lc & Le & Lh) HM.
  apply proto_Marshal_inr in HM as (-> & Vc & Ve & Vh).
  unfold proto_Unmarshal.
  match goal with |- context [unmarshal_fields ?f ?b ?z] =>
    assert (Hd : decodes b z m) end.
  { assert (Hnum : forall k, 1 <= k <= 7 -> MinValidNumber <= k <= MaxValidNumber)
      by (unfold MinValidNumber, MaxValidNumber; lia).
    apply (decodes_string_field 1 with_ChainId); [reflexivity|apply Hnum; lia|done..|].
    apply (decodes_string_field 2 with_Env); [reflexivity|apply Hnum; lia|done..|].
    apply (decodes_varint_field 3 int64 with_BlockNum);
      [reflexivity|apply Hnum; lia|now apply int64_uint64|].
    apply (decodes_string_field 4 with_BlockHash); [reflexivity|apply Hnum; lia|done..|].
    apply (decodes_varint_field 5 int64 with_MsgOffset);
      [reflexivity|apply Hnum; lia|now apply int64_uint64|].
    apply (decodes_varint_field 6 int32 with_BlockType);
      [reflexivity|apply Hnum; lia|now apply int32_uint64|].
    apply (decodes_varint_field 7 int64 with_BlockSize);
      [reflexivity|apply Hnum; lia|now apply int64_uint64|].
    match goal with |- decodes [] ?x _ => replace x with m; [apply decodes_nil|] end.
    destruct m as [c e n h o t s]. cbn [ChainId Env BlockNum BlockHash MsgOffset BlockType BlockSize].
    repeat match goal with
           | |- context [if ?c then _ else _] =>
               let X := fresh "X" in destruct c eqn:X;
               [first [apply Z.eqb_eq, len_bytes_of_string_0 in X | apply Z.eqb_eq in X]|clear X]
           end; subst; reflexivity. }
  now rewrite Hd.
Qed.

(** ** The fuel of the decoder

    Every round of the decoder's loops consumes at least the byte of a
    tag, so the fuel they start with, the number of bytes, is never used
    up: more fuel gives the same result. *)

Lemma ConsumeVarint_loop_shorter (n : nat) :
  forall (b r : bytes) (v : Z),
    ConsumeVarint_loop n b = Some (v, r) -> (length r < length b)%nat.
Proof.
  induction n as [|n IH]; intros b r v; [discriminate|].
  destruct b as [|c b']; [discriminate|]. cbn [ConsumeVarint_loop length].
  destruct (Z_of_byte c <? 128).
  - destruct n; [destruct (Z_of_byte c <? 2)|]; intros [= _ <-]; lia.
  - destruct (ConsumeVarint_loop n b') as [[v' r']|] eqn:Hrec; [|discriminate].
    intros [= _ <-]. apply IH in Hrec. lia.
Qed.

Lemma ConsumeVarint_shorter (b r : bytes) (v : Z) :
  ConsumeVarint b = Some (v, r) -> (length r < length b)%nat.
Proof. apply ConsumeVarint_loop_shorter. Qed.

Lemma ConsumeBytes_shorter (b r v : bytes) :
  ConsumeBytes b = Some (v, r) -> (length r < length b)%nat.
Proof.
  unfold ConsumeBytes.
  destruct (ConsumeVarint b) as [[m b1]|] eqn:Hv; [|discriminate].
  apply ConsumeVarint_shorter in Hv.
  destruct (len b1 <? m); [discriminate|]. intros [= _ <-].
  rewrite length_skipn. lia.
Qed.

Lemma ConsumeTag_shorter (b r : bytes) (num typ : Z) :
  ConsumeTag b = Some (num, typ, r) -> (length r < length b)%nat.
Proof.
  unfold ConsumeTag.
  destruct (ConsumeVarint b) as [[v b1]|] eqn:Hv; [|discriminate].
  apply ConsumeVarint_shorter in Hv.
  destruct (MaxInt32 <? v / 8); [discriminate|].
  destruct (v / 8 <? MinValidNumber); [discriminate|].
  intros [= _ _ <-]. exact Hv.
Qed.

Lemma consumeScalarValue_shorter (typ : Z) (b r : bytes) :
  consumeScalarValue typ b = Some r -> (length r <= length b)%nat.
Proof.
  unfold consumeScalarValue, ConsumeFixed.
  destruct (typ =? VarintType).
  { destruct (ConsumeVarint b) as [[v b1]|] eqn:Hv; [|discriminate].
    apply ConsumeVarint_shorter in Hv. intros [= <-]. cbn. lia. }
  destruct (typ =? Fixed32Type).
  { destruct (length b <? 4)%nat; [discriminate|]. intros [= <-].
    rewrite length_skipn. lia. }
  destruct (typ =? Fixed64Type).
  { destruct (length b <? 8)%nat; [discriminate|]. intros [= <-].
    rewrite length_skipn. lia. }
  destruct (typ =? BytesType); [|discriminate].
  destruct (ConsumeBytes b) as [[v b1]|] eqn:Hv; [|discriminate].
  apply ConsumeBytes_shorter in Hv. intros [= <-]. cbn. lia.
Qed.

Lemma consumeGroup_shorter (fuel : nat) :
  forall (num depth : Z) (b r : bytes),
    consumeGroup fuel num b depth = Some r -> (length r < length b)%nat.
Proof.
  induction fuel as [|fuel IH]; intros num depth b r; [discriminate|].
  cbn [consumeGroup].
  destruct (ConsumeTag b) as [[[num2 typ2] b1]|] eqn:Ht; [|discriminate].
  apply ConsumeTag_shorter in Ht.
  destruct (typ2 =? EndGroupType).
  { destruct (num =? num2); [|discriminate]. intros [= <-]. exact Ht. }
  destruct (typ2 =? StartGroupType).
  - destruct (depth - 1 <? 0); [discriminate|].
    destruct (consumeGroup fuel num2 b1 (depth - 1)) as [b2|] eqn:Hin; [|discriminate].
    apply IH in Hin. intros Hout. apply IH in Hout. lia.
  - destruct (consumeScalarValue typ2 b1) as [b2|] eqn:Hin; [|discriminate].
    apply consumeScalarValue_shorter in Hin. intros Hout. apply IH in Hout. lia.
Qed.

Lemma consumeGroup_fuel (fuel : nat) :
  forall (fuel' : nat) (num depth : Z) (b : bytes),
    (length b <= fuel)%nat -> (length b <= fuel')%nat ->
    consumeGroup fuel num b depth = consumeGroup fuel' num b depth.
Proof.
  induction fuel as [|fuel IH]; intros fuel' num depth b Hf Hf'.
  { destruct b; [|cbn in Hf; lia]. destruct fuel'; reflexivity. }
  destruct fuel' as [|fuel'].
  { destruct b; [|cbn in Hf'; lia]. reflexivity. }
  cbn [consumeGroup].
  destruct (ConsumeTag b) as [[[num2 typ2] b1]|] eqn:Ht; [|reflexivity].
  apply ConsumeTag_shorter in Ht.
  destruct (typ2 =? EndGroupType); [reflexivity|].
  destruct (typ2 =? StartGroupType).
  - destruct (depth - 1 <? 0); [reflexivity|].
    rewrite (IH fuel' num2 (depth - 1) b1) by lia.
    destruct (consumeGroup fuel' num2 b1 (depth - 1)) as [b2|] eqn:Hin; [|reflexivity].
    apply consumeGroup_shorter in Hin. apply IH; lia.
  - destruct (consumeScalarValue typ2 b1) as [b2|] eqn:Hin; [|reflexivity].
    apply consumeScalarValue_shorter in Hin. apply IH; lia.
Qed.

Lemma ConsumeFieldValue_shorter (num typ : Z) (b r : bytes) :
  ConsumeFieldValue num typ b = Some r -> (length r <= length b)%nat.
Proof.
  unfold ConsumeFieldValue. destruct (typ =? StartGroupType).
  - destruct (DefaultRecursionLimit <? 0); [discriminate|].
    intros H. apply consumeGroup_shorter in H. lia.
  - apply consumeScalarValue_shorter.
Qed.

Lemma unmarshal_field_shorter (num wtyp : Z) (b r : bytes) (m m' : BlockInfo) :
  unmarshal_field num wtyp b m = FieldSet m' r -> (length r <= length b)%nat.
Proof.
  assert (Hs : forall set, consumeStringValidateUTF8 set wtyp b m = FieldSet m' r ->
                           (length r <= length b)%nat).
  { intros set. unfold consumeStringValidateUTF8.
    destruct (negb (wtyp =? BytesType)); [discriminate|].
    destruct (ConsumeBytes b) as [[v b1]|] eqn:Hv; [|discriminate].
    apply ConsumeBytes_shorter in Hv.
    destruct (utf8_Valid v); [|discriminate]. intros [= _ <-]. lia. }
  assert (Hv : forall conv set, consumeVarintField conv set wtyp b m = FieldSet m' r ->
                                (length r <= length b)%nat).
  { intros conv set. unfold consumeVarintField.
    destruct (negb (wtyp =? VarintType)); [discriminate|].
    destruct (ConsumeVarint b) as [[v b1]|] eqn:Hc; [|discriminate].
    apply ConsumeVarint_shorter in Hc. intros [= _ <-]. lia. }
  unfold unmarshal_field.
  destruct num as [|[[[]|[]|]|[[]|[]|]|]|]; eauto; discriminate.
Qed.

(** With the number of bytes as fuel, the decoder's loop does not run out
    of it. *)
Lemma unmarshal_fields_fuel (fuel : nat) :
  forall (fuel' : nat) (b : bytes) (m : BlockInfo),
    (length b <= fuel)%nat -> (length b <= fuel')%nat ->
    unmarshal_fields fuel b m = unmarshal_fields fuel' b m.
Proof.
  induction fuel as [|fuel IH]; intros fuel' b m Hf Hf'.
  { destruct b; [|cbn in Hf; lia]. destruct fuel'; reflexivity. }
  destruct fuel' as [|fuel'].
  { destruct b; [|cbn in Hf'; lia]. reflexivity. }
  destruct (ConsumeVarint b) as [[tag b1]|] eqn:Hc.
  - rewrite !(unmarshal_fields_step _ b b1 tag m Hc).
    apply ConsumeVarint_shorter in Hc.
    destruct ((tag / 8 <? MinValidNumber) || (MaxValidNumber <? tag / 8)); [reflexivity|].
    destruct (tag mod 8 =? EndGroupType); [reflexivity|].
    destruct (unmarshal_field (tag / 8) (tag mod 8) b1 m) as [m' b2| |] eqn:Hfield.
    + apply unmarshal_field_shorter in Hfield. apply IH; lia.
    + destruct (ConsumeFieldValue (tag / 8) (tag mod 8) b1) as [b2|] eqn:Hu; [|reflexivity].
      apply ConsumeFieldValue_shorter in Hu. apply IH; lia.
    + reflexivity.
  - destruct b as [|c b']; [reflexivity|]. cbn [unmarshal_fields]. now rewrite Hc.
Qed.

(** ** The registry *)

Section Registry.
Context {E : Engine}.

(** C7. [Register] with the metadata flag set, on a pool that has a
    metadata identifier designated, panics: it does not return. *)
Theorem Register_second_meta_panics (p : DBPool) (id : Z) (path dbType : string)
    (db : option handle) :
  metaDBID p <> MinInt32 ->
  snd (Register p id path dbType db true) = Panics "meta db already registered".
Proof.
  intros Hmeta. unfold Register. cbn [metaDBID andb].
  apply Z.eqb_neq in Hmeta. rewrite Hmeta. reflexivity.
Qed.

Lemma path_is_open_true (p : DBPool) (path : string) :
  path_is_open p path = true <->
  exists (id : Z) (wr : dbWrap), dbs p !! id = Some wr /\ dbWrap_path wr = path.
Proof.
  unfold path_is_open. rewrite existsb_exists. split.
  - intros ([id wr] & Hin & Hp). exists id, wr. split.
    + apply elem_of_map_to_list. now apply list_elem_of_In.
    + now apply bool_decide_eq_true in Hp.
  - intros (id & wr & Hl & Hp). exists (id, wr). split.
    + apply list_elem_of_In. now apply elem_of_map_to_list.
    + now apply bool_decide_eq_true.
Qed.

(** C8. [Open] of a leveldb descriptor with a new identifier and the path
    of a registered handle returns nil and leaves the pool and the stores
    as they were; [GetDB] of the identifier then answers not found. *)
Theorem Open_same_path_drops_identifier (p : DBPool) (w : World) (dbInfo : DBInfo) :
  dbs p !! DBInfo_Id dbInfo = None ->
  DbType dbInfo = "leveldb" ->
  (exists (id : Z) (wr : dbWrap),
      dbs p !! id = Some wr /\ dbWrap_path wr = DbPath dbInfo) ->
  Open p w dbInfo = (p, w, None) /\
  GetDB (fst (fst (Open p w dbInfo))) (DBInfo_Id dbInfo)
    = (None, Some (leveldb_err ErrNotFound)).
Proof.
  intros Hnew Hty Hpath.
  assert (HO : Open p w dbInfo = (p, w, None)).
  { unfold Open. rewrite Hnew, Hty.
    rewrite bool_decide_eq_true_2 by reflexivity.
    apply path_is_open_true in Hpath. now rewrite Hpath. }
  split; [exact HO|]. rewrite HO. cbn [fst]. unfold GetDB. now rewrite Hnew.
Qed.

(** C9. When [Open] returns [ErrMetaDBAlreadyRegistered], the descriptor
    is flagged while a metadata identifier is designated, the pool holds
    the handle just opened under the descriptor's identifier, so [GetDB]
    of it succeeds, and the designated identifier is the one before. *)
Theorem Open_duplicate_meta_keeps_handle (p p' : DBPool) (w w' : World) (dbInfo : DBInfo) :
  Open p w dbInfo = (p', w', Some ErrMetaDBAlreadyRegistered) ->
  exists h : handle,
    GetDB p' (DBInfo_Id dbInfo) = (Some h, None) /\
    is_Some (w' !! h) /\
    dbs p' !! DBInfo_Id dbInfo
      = Some {| dbWrap_id := DBInfo_Id dbInfo; dbWrap_db := Some h;
                dbWrap_path := DbPath dbInfo; dbWrap_dbType := DbType dbInfo;
                dbWrap_isMeta := true |} /\
    metaDBID p' = metaDBID p /\
    IsMeta dbInfo = true /\ metaDBID p <> MinInt32 /\
    dbs p !! DBInfo_Id dbInfo = None.
Proof.
  unfold Open. destruct (dbs p !! DBInfo_Id dbInfo) eqn:Hid; [discriminate|].
  destruct (bool_decide (DbType dbInfo = "leveldb")); [|discriminate].
  destruct (path_is_open p (DbPath dbInfo)); [discriminate|].
  unfold NewLDB. destruct (Store_Open (DbPath dbInfo) w) as [e|s]; [discriminate|].
  cbn [metaDBID].
  destruct (IsMeta dbInfo) eqn:Hm; cbn [andb]; [|discriminate].
  destruct (metaDBID p =? MinInt32) eqn:Hs; cbn [negb]; [discriminate|].
  intros [= <- <-]. exists (fresh (dom w)).
  unfold GetDB. cbn [dbs metaDBID]. rewrite !lookup_insert_eq. cbn [dbWrap_db].
  split; [reflexivity|].
  split; [eauto|]. split; [reflexivity|].
  split; [reflexivity|]. split; [reflexivity|]. split; [|reflexivity].
  now apply Z.eqb_neq.
Qed.

(** C10. [Open] of a descriptor whose engine type is not leveldb and
    whose identifier is new returns nil and leaves the pool and the stores
    as they were; [GetDB] of the identifier then answers not found. *)
Theorem Open_other_engine_is_noop (p : DBPool) (w : World) (dbInfo : DBInfo) :
  dbs p !! DBInfo_Id dbInfo = None ->
  DbType dbInfo <> "leveldb" ->
  Open p w dbInfo = (p, w, None) /\
  GetDB (fst (fst (Open p w dbInfo))) (DBInfo_Id dbInfo)
    = (None, Some (leveldb_err ErrNotFound)).
Proof.
  intros Hnew Hty.
  assert (HO : Open p w dbInfo = (p, w, None)).
  { unfold Open. rewrite Hnew. now rewrite bool_decide_eq_false_2. }
  split; [exact HO|]. rewrite HO. cbn [fst]. unfold GetDB. now rewrite Hnew.
Qed.

(** X4. [Register] puts the handle under its identifier, whether it
    returns or panics, and leaves the other identifiers as they were. *)
Lemma GetDB_after_Register (p : DBPool) (id id' : Z) (path dbType : string)
    (db : option handle) (isMetaDB : bool) :
  GetDB (fst (Register p id path dbType db isMetaDB)) id = (db, None) /\
  (id' = id \/ GetDB (fst (Register p id path dbType db isMetaDB)) id' = GetDB p id').
Proof.
  assert (Hdbs : dbs (fst (Register p id path dbType db isMetaDB))
                 = <[id := {| dbWrap_id := id; dbWrap_db := db; dbWrap_path := path;
                              dbWrap_dbType := dbType; dbWrap_isMeta := isMetaDB |}]>
                     (dbs p)).
  { unfold Register. cbn [metaDBID dbs].
    destruct isMetaDB; cbn [andb]; [destruct (metaDBID p =? MinInt32)|]; reflexivity. }
  unfold GetDB. rewrite Hdbs. split.
  - now rewrite lookup_insert_eq.
  - destruct (decide (id' = id)) as [|Hne]; [now left|right].
    now rewrite lookup_insert_ne.
Qed.

(** X2. In every pool a program can build, a designated metadata
    identifier is one the pool holds a handle for. *)
Lemma reachable_designated_registered (p : DBPool) :
  reachable p -> metaDBID p <> MinInt32 -> is_Some (dbs p !! metaDBID p).
Proof.
  induction 1 as [|p p' id path dbType db isMetaDB _ IH HR
                  |p p' w w' dbInfo err _ IH HO].
  - intros Hne. now contradict Hne.
  - revert HR. unfold Register. cbn [metaDBID dbs].
    destruct isMetaDB; cbn [andb].
    + destruct (metaDBID p =? MinInt32); cbn [negb]; [|discriminate].
      intros [= <-]. cbn [metaDBID dbs]. intros _. rewrite lookup_insert_eq. eauto.
    + intros [= <-]. cbn [metaDBID dbs]. intros Hne.
      destruct (decide (id = metaDBID p)) as [->|Hd].
      * rewrite lookup_insert_eq. eauto.
      * rewrite lookup_insert_ne by exact Hd. now apply IH.
  - revert HO. unfold Open.
    destruct (dbs p !! DBInfo_Id dbInfo) eqn:Hid; [now intros [= <- _ _]|].
    destruct (bool_decide (DbType dbInfo = "leveldb")); [|now intros [= <- _ _]].
    destruct (path_is_open p (DbPath dbInfo)); [now intros [= <- _ _]|].
    destruct (NewLDB w (DbPath dbInfo)) as [e|[h w1]]; [now intros [= <- _ _]|].
    cbn [metaDBID dbs].
    destruct (IsMeta dbInfo); cbn [andb].
    + destruct (metaDBID p =? MinInt32); cbn [negb].
      * intros [= <- _ _]. cbn [metaDBID dbs]. intros _.
        rewrite lookup_insert_eq. eauto.
      * intros [= <- _ _]. cbn [metaDBID dbs]. intros Hne.
        rewrite lookup_insert_ne
          by (intros Heq; rewrite Heq in Hid; apply IH in Hne; rewrite Hid in Hne;
              now destruct Hne).
        now apply IH.
    + intros [= <- _ _]. cbn [metaDBID dbs]. intros Hne.
      rewrite lookup_insert_ne
        by (intros Heq; rewrite Heq in Hid; apply IH in Hne; rewrite Hid in Hne;
            now destruct Hne).
      now apply IH.
Qed.

Lemma insert_unflagged_invariant (p : DBPool) (id : Z) (wr : dbWrap) :
  dbs p !! id = None -> dbWrap_isMeta wr = false ->
  meta_is_designated p /\ designated_is_meta p ->
  meta_is_designated {| dbs := <[id := wr]> (dbs p); metaDBID := metaDBID p |} /\
  designated_is_meta {| dbs := <[id := wr]> (dbs p); metaDBID := metaDBID p |}.
Proof.
  intros Hnew Hflag [HJ HK]. split.
  - intros i wi. cbn [dbs metaDBID]. rewrite lookup_insert.
    case_decide as Hi; [|apply HJ].
    intros [= <-]. congruence.
  - intros Hne. cbn [dbs metaDBID] in *. destruct (HK Hne) as (wm & Hwm & Hm).
    exists wm. split; [|exact Hm].
    rewrite lookup_insert_ne; [exact Hwm|]. intros ->. congruence.
Qed.

Lemma insert_first_meta_invariant (p : DBPool) (id : Z) (wr : dbWrap) :
  id <> MinInt32 -> metaDBID p = MinInt32 -> dbWrap_isMeta wr = true ->
  meta_is_designated p ->
  meta_is_designated {| dbs := <[id := wr]> (dbs p); metaDBID := id |} /\
  designated_is_meta {| dbs := <[id := wr]> (dbs p); metaDBID := id |}.
Proof.
  intros Hid Hnone Hflag HJ. split.
  - intros i wi. cbn [dbs metaDBID]. rewrite lookup_insert.
    case_decide as Hi.
    + intros _ _. subst i. now split.
    + intros Hl Hm. destruct (HJ i wi Hl Hm) as [-> Hc]. now contradict Hc.
  - intros _. cbn [dbs metaDBID]. exists wr. now rewrite lookup_insert_eq.
Qed.

(** X5. What holds of the claimed invariant: in a pool built in an orderly
    way, at most one handle has the metadata flag, and a designated
    identifier maps to a handle that has it. *)
Lemma orderly_invariant (p : DBPool) :
  orderly p -> at_most_one_meta p /\ designated_is_meta p.
Proof.
  intros Ho.
  assert (HI : meta_is_designated p /\ designated_is_meta p).
  { induction Ho as [|p p' id path dbType db isMetaDB _ IH Hnew Hid HR
                     |p p' w w' dbInfo _ IH Hid HO].
    - split.
      + intros i wi. cbn. now rewrite lookup_empty.
      + intros Hne. now contradict Hne.
    - revert HR. unfold Register. cbn [metaDBID dbs].
      destruct isMetaDB; cbn [andb].
      + destruct (metaDBID p =? MinInt32) eqn:Hs; cbn [negb]; [|discriminate].
        apply Z.eqb_eq in Hs. intros [= <-].
        now apply insert_first_meta_invariant.
      + intros [= <-]. now apply insert_unflagged_invariant.
    - revert HO. unfold Open.
      destruct (dbs p !! DBInfo_Id dbInfo) eqn:Hnew; [now intros [= <- _]|].
      destruct (bool_decide (DbType dbInfo = "leveldb")); [|now intros [= <- _]].
      destruct (path_is_open p (DbPath dbInfo)); [now intros [= <- _]|].
      destruct (NewLDB w (DbPath dbInfo)) as [e|[h w1]]; [discriminate|].
      cbn [metaDBID dbs].
      destruct (IsMeta dbInfo) eqn:Hm; cbn [andb].
      + destruct (metaDBID p =? MinInt32) eqn:Hs; cbn [negb]; [|discriminate].
        apply Z.eqb_eq in Hs. intros [= <- _].
        now apply insert_first_meta_invariant.
      + intros [= <- _]. now apply insert_unflagged_invariant. }
  destruct HI as [HJ HK]. split; [|exact HK].
  intros i j wi wj Hi Hj Hmi Hmj.
  destruct (HJ i wi Hi Hmi) as [-> _]. destruct (HJ j wj Hj Hmj) as [-> _].
  reflexivity.
Qed.

End Registry.

(** ** The checkpoint *)

Section Checkpoint.
Context {E : Engine}.

Lemma GetBlockInfo_meta_store (p : DBPool) (w : World) (s : Store) :
  meta_store p w s ->
  GetBlockInfo p w =
    match Store_Get s (bytes_of_string LastBlockInfo) with
    | inl e =>
        if bool_decide (e = ErrNotFound) then Returns (Some header_init, None)
        else Returns (None, Some (leveldb_err e))
    | inr buf =>
        if len buf =? 0 then Returns (Some header_init, None)
        else match proto_Unmarshal buf header_init with
             | inl _ => Returns (None, None)
             | inr header => Returns (Some header, None)
             end
    end.
Proof.
  intros (Hmeta & wr & h & Hwr & Hdb & Hs).
  unfold GetBlockInfo, dbs_index, DB_Get.
  apply Z.eqb_neq in Hmeta. rewrite Hmeta, Hwr. cbn [from_option id]. rewrite Hdb, Hs.
  reflexivity.
Qed.

Lemma WriteBlockInfo_meta_store (p : DBPool) (w w' : World) (s : Store)
    (header : BlockInfo) :
  meta_store p w s ->
  WriteBlockInfo p w header = (w', Returns None) ->
  exists (buf : bytes) (ops : Ops) (s' : Store),
    proto_Marshal header = inr buf /\
    Ops_Put Ops_new (bytes_of_string LastBlockInfo) buf = inr ops /\
    Store_Write s ops = inr s' /\
    meta_store p w' s'.
Proof.
  intros (Hmeta & wr & h & Hwr & Hdb & Hs).
  unfold WriteBlockInfo, dbs_index, DB_NewBatch, Batch_Put, Batch_Write.
  pose proof Hmeta as Hne. apply Z.eqb_neq in Hmeta. rewrite Hmeta, Hwr.
  cbn [from_option id]. rewrite Hdb.
  destruct (proto_Marshal header) as [e|buf]; [discriminate|].
  cbn [Batch_ops Batch_db].
  destruct (Ops_Put _ _ _) as [e|ops] eqn:HP; [discriminate|].
  cbn [Batch_ops Batch_db]. rewrite Hs.
  destruct (Store_Write s ops) as [e|s'] eqn:HW; [discriminate|].
  intros [= <-]. exists buf, ops, s'.
  split; [reflexivity|]. split; [exact HP|]. split; [exact HW|].
  split; [exact Hne|]. exists wr, h.
  split; [exact Hwr|]. split; [exact Hdb|]. apply lookup_insert_eq.
Qed.

(** C4, as the code has it. With a metadata store designated and open:
    when the key is absent, [GetBlockInfo] returns the record with block
    number -1 and message offset -1 and no error; after [WriteBlockInfo]
    of a record returned nil, [GetBlockInfo] returns that record, unless
    every field of it holds its zero value: that record is written as no
    bytes, and [GetBlockInfo] answers as if the key were absent. *)
Theorem GetBlockInfo_after_WriteBlockInfo (p : DBPool) (w : World) (s : Store) :
  write_is_durable ->
  meta_store p w s ->
  (Store_Get s (bytes_of_string LastBlockInfo) = inl ErrNotFound ->
   GetBlockInfo p w = Returns (Some header_init, None)) /\
  (forall (header : BlockInfo) (w' : World),
      BlockInfo_typed header ->
      WriteBlockInfo p w header = (w', Returns None) ->
      GetBlockInfo p w'
        = Returns (Some (if bool_decide (header = BlockInfo_zero)
                         then header_init else header), None)).
Proof.
  intros Hdur Hmeta. split.
  - intros Habs. rewrite (GetBlockInfo_meta_store p w s Hmeta), Habs.
    now rewrite bool_decide_eq_true_2.
  - intros header w' Hty HW.
    destruct (WriteBlockInfo_meta_store p w w' s header Hmeta HW)
      as (buf & ops & s' & HM & HP & HS & Hmeta').
    rewrite (GetBlockInfo_meta_store p w' s' Hmeta').
    rewrite (Hdur s s' _ buf ops HP HS).
    case_bool_decide as Hz.
    + subst header. rewrite proto_Marshal_zero in HM. injection HM as <-.
      reflexivity.
    + destruct buf as [|c buf'].
      { exfalso. apply Hz. now apply proto_Marshal_nil. }
      replace (len (c :: buf') =? 0) with false
        by (symmetry; apply Z.eqb_neq; unfold len; cbn [length]; lia).
      now rewrite (proto_Unmarshal_Marshal header header_init _ Hty HM).
Qed.

(** C5, as the code has it. When the bytes under the key do not
    deserialize, [GetBlockInfo] returns a nil record and a nil error; when
    the key is absent it returns the record with -1 and -1: the two results
    differ. *)
Theorem GetBlockInfo_undecodable (p : DBPool) (w : World) (s : Store)
    (buf : bytes) (e : error) :
  meta_store p w s ->
  Store_Get s (bytes_of_string LastBlockInfo) = inr buf ->
  proto_Unmarshal buf header_init = inl e ->
  GetBlockInfo p w = Returns (None, None) /\
  (forall (w0 : World) (s0 : Store),
      meta_store p w0 s0 ->
      Store_Get s0 (bytes_of_string LastBlockInfo) = inl ErrNotFound ->
      GetBlockInfo p w0 = Returns (Some header_init, None) /\
      GetBlockInfo p w <> GetBlockInfo p w0).
Proof.
  intros Hmeta Hget Hbad.
  assert (HG : GetBlockInfo p w = Returns (None, None)).
  { rewrite (GetBlockInfo_meta_store p w s Hmeta), Hget.
    destruct buf as [|c buf']; [discriminate Hbad|].
    replace (len (c :: buf') =? 0) with false
      by (symmetry; apply Z.eqb_neq; unfold len; cbn [length]; lia).
    now rewrite Hbad. }
  split; [exact HG|]. intros w0 s0 Hmeta0 Habs.
  assert (HG0 : GetBlockInfo p w0 = Returns (Some header_init, None)).
  { rewrite (GetBlockInfo_meta_store p w0 s0 Hmeta0), Habs.
    now rewrite bool_decide_eq_true_2. }
  split; [exact HG0|]. rewrite HG, HG0. discriminate.
Qed.

(** X3. Without a metadata store designated, [WriteBlockInfo] returns
    [ErrNoMetaDBRegistered] and writes nothing. *)
Lemma WriteBlockInfo_without_meta_store (p : DBPool) (w : World) (header : BlockInfo) :
  metaDBID p = MinInt32 ->
  WriteBlockInfo p w header = (w, Returns (Some ErrNoMetaDBRegistered)).
Proof. intros Hm. unfold WriteBlockInfo. now rewrite Hm. Qed.

End Checkpoint.

(** ** Batches *)

Section Batches.
Context {E : Engine}.

Lemma fold_left_append_map {A C : Type} (f : A -> C) (l : list A) :
  forall acc : list C,
    fold_left (fun acc x => acc ++ [f x]) l acc = acc ++ map f l.
Proof.
  induction l as [|x l IH]; intros acc; cbn [fold_left map].
  - now rewrite app_nil_r.
  - rewrite IH, <- app_assoc. reflexivity.
Qed.

Lemma Marshal_items (p : DBPool) (batchs : list BatchWithID) :
  Marshal p batchs
  = (map (fun item => {| BatchItem_Id := int32 (ID item);
                         Data := Batch_Dump (B item) |}) batchs, None).
Proof.
  unfold Marshal. f_equal.
  exact (fold_left_append_map
           (fun item => {| BatchItem_Id := int32 (ID item);
                           Data := Batch_Dump (B item) |}) batchs []).
Qed.

Lemma int32_id (z : Z) : is_int32 z -> int32 z = z.
Proof. unfold is_int32, int32. intros. rewrite Z.mod_small; lia. Qed.

Lemma WriteBatchs_committed (p : DBPool) (batchs : list BatchWithID) :
  forall w w' : World,
    committed w batchs = Some w' -> WriteBatchs p w batchs = (w', Returns None).
Proof.
  induction batchs as [|item rest IH]; intros w w'; cbn [committed WriteBatchs].
  - now intros [= <-].
  - destruct (Batch_Write w (B item)) as [w1 [[e|]|msg]]; try discriminate.
    apply IH.
Qed.

(** C6. [WriteBatchs] writes the batches in the order of the list. When
    every write succeeds it returns nil. At the first write that fails it
    returns the error of that write, and the stores are as the batches
    before it left them: these are committed, the failing batch and the
    ones after it are not written. *)
Theorem WriteBatchs_stops_at_first_failure (p : DBPool) (w : World)
    (batchs : list BatchWithID) :
  (forall w' : World,
      committed w batchs = Some w' -> WriteBatchs p w batchs = (w', Returns None)) /\
  (forall (pre post : list BatchWithID) (item : BatchWithID) (w1 : World) (err : error),
      batchs = pre ++ item :: post ->
      committed w pre = Some w1 ->
      snd (Batch_Write w1 (B item)) = Returns (Some err) ->
      WriteBatchs p w batchs = (w1, Returns (Some err))).
Proof.
  split; [apply WriteBatchs_committed|].
  intros pre post item w1 err -> Hpre Hfail. revert w Hpre.
  induction pre as [|b pre IH]; intros w; cbn [committed app WriteBatchs].
  - intros [= ->]. unfold Batch_Write in *.
    destruct (w1 !! Batch_db (B item)) as [s|]; [|discriminate Hfail].
    destruct (Store_Write s (Batch_ops (B item))) as [e|s']; [|discriminate Hfail].
    cbn [snd] in Hfail. injection Hfail as <-. reflexivity.
  - destruct (Batch_Write w (B b)) as [w2 [[e|]|msg]]; try discriminate.
    apply IH.
Qed.

(** C3. For batches addressed to stores of the pool, whose dumps [Load]
    reads back: [Marshal] returns no error, and [WriteBatchItems] on the
    items it returns leaves the stores, and returns, as [WriteBatchs] on
    the batches does. *)
Theorem WriteBatchItems_Marshal (p : DBPool) (batchs : list BatchWithID) :
  Forall (fun item => addressed p item /\ Load_inverts_Dump (B item)) batchs ->
  forall w : World,
    snd (Marshal p batchs) = None /\
    WriteBatchItems p w (fst (Marshal p batchs)) = WriteBatchs p w batchs.
Proof.
  intros Hall w. rewrite Marshal_items. cbn [fst snd]. split; [reflexivity|].
  revert w. induction Hall as [|item rest [[Hid (wr & Hwr & Hdb)] Hload] _ IH];
    intros w; cbn [map WriteBatchItems WriteBatchs]; [reflexivity|].
  cbn [BatchItem_Id Data]. unfold dbs_index. rewrite (int32_id _ Hid), Hwr.
  cbn [from_option id]. rewrite Hdb. cbn [DB_NewBatch].
  unfold Batch_Load. cbn [Batch_ops Batch_db].
  unfold Load_inverts_Dump in Hload. rewrite Hload.
  replace {| Batch_db := Batch_db (B item); Batch_ops := Batch_ops (B item) |}
    with (B item) by (now destruct (B item)).
  destruct (Batch_Write w (B item)) as [w1 [[e|]|msg]]; try reflexivity.
  apply IH.
Qed.

Lemma WriteBatchItems_committed (p : DBPool) (items : list BatchItem) :
  forall w w' : World,
    committed_items p w items = Some w' ->
    WriteBatchItems p w items = (w', Returns None).
Proof.
  induction items as [|item rest IH]; intros w w'; cbn [committed_items WriteBatchItems].
  - now intros [= <-].
  - unfold dbs_index.
    destruct (dbs p !! BatchItem_Id item) as [[i [h|] pa ty me]|]; try discriminate.
    cbn [from_option id dbWrap_db DB_NewBatch]. unfold Batch_Load. cbn [Batch_ops Batch_db].
    destruct (Ops_Load Ops_new (Data item)) as [e|ops]; [discriminate|].
    destruct (Batch_Write w _) as [w1 [[e|]|msg]]; try discriminate.
    apply IH.
Qed.

(** X1. What [WriteBatchItems] does at an item whose identifier is not
    registered: the items before it are written, and the call panics
    on the nil store of the zero handle; the item and the ones after it
    are not written. *)
Lemma WriteBatchItems_unregistered (p : DBPool) (w w1 : World)
    (pre post : list BatchItem) (item : BatchItem) :
  committed_items p w pre = Some w1 ->
  dbs p !! BatchItem_Id item = None ->
  WriteBatchItems p w (pre ++ item :: post) = (w1, Panics nil_dereference).
Proof.
  intros Hpre Hnone. revert w Hpre.
  induction pre as [|it pre IH]; intros w; cbn [committed_items app WriteBatchItems].
  - intros [= ->]. unfold dbs_index. rewrite Hnone. reflexivity.
  - unfold dbs_index.
    destruct (dbs p !! BatchItem_Id it) as [[i [h|] pa ty me]|]; try discriminate.
    cbn [from_option id dbWrap_db DB_NewBatch]. unfold Batch_Load. cbn [Batch_ops Batch_db].
    destruct (Ops_Load Ops_new (Data it)) as [e|ops]; [discriminate|].
    destruct (Batch_Write w _) as [w2 [[e|]|msg]]; try discriminate.
    apply IH.
Qed.

End Batches.

(** ** The descriptors and the paths of the pool *)

Section Lookup.
Context {E : Engine}.

Lemma GetDBInfo_map (p : DBPool) (order : list (Z * dbWrap)) :
  metaDBID p <> MinInt32 ->
  GetDBInfo p order = (Some {| DbInfos := descriptor_of <$> order |}, None).
Proof.
  intros Hm. unfold GetDBInfo. apply Z.eqb_neq in Hm. rewrite Hm.
  do 3 f_equal. exact (fold_left_append_map descriptor_of order []).
Qed.

(** X6. [GetDBInfo], with a metadata store designated, returns no error
    and one descriptor for every identifier of the pool: as many as the
    pool has handles, no identifier twice, each with the key, the engine
    type, the path and the flag of its handle, in whatever order the map is
    visited. With none designated it returns nil and
    [ErrNoMetaDBRegistered]. *)
Theorem GetDBInfo_lists_every_handle (p : DBPool) (order : list (Z * dbWrap)) :
  range_order p order ->
  (metaDBID p = MinInt32 ->
   GetDBInfo p order = (None, Some ErrNoMetaDBRegistered)) /\
  (metaDBID p <> MinInt32 ->
   exists infos : list DBInfo,
     GetDBInfo p order = (Some {| DbInfos := infos |}, None) /\
     length infos = size (dbs p) /\
     NoDup (DBInfo_Id <$> infos) /\
     forall d : DBInfo,
       d ∈ infos <->
       exists wr : dbWrap,
         dbs p !! DBInfo_Id d = Some wr /\ DbType d = dbWrap_dbType wr /\
         DbPath d = dbWrap_path wr /\ IsMeta d = dbWrap_isMeta wr).
Proof.
  unfold range_order. intros Hperm. split.
  { intros Hm. unfold GetDBInfo. now rewrite Hm. }
  intros Hm. exists (descriptor_of <$> order).
  split; [now apply GetDBInfo_map|].
  split; [rewrite length_fmap, Hperm; apply length_map_to_list|].
  split.
  { rewrite <- list_fmap_compose.
    replace (DBInfo_Id ∘ descriptor_of) with (@fst Z dbWrap) by reflexivity.
    rewrite Hperm. apply NoDup_fst_map_to_list. }
  intros d. rewrite list_elem_of_fmap. split.
  - intros ([k wr] & -> & Hin). rewrite Hperm in Hin.
    apply elem_of_map_to_list in Hin. exists wr. cbn. auto.
  - intros (wr & Hl & Ht & Hp & Hf). exists (DBInfo_Id d, wr). split.
    + destruct d as [i t pa f]. cbn in *. unfold descriptor_of. cbn. congruence.
    + rewrite Hperm. now apply elem_of_map_to_list.
Qed.

Lemma GetDBID_range_cases (order : list (Z * dbWrap)) (path : string) :
  (exists (k : Z) (wr : dbWrap),
      (k, wr) ∈ order /\ dbWrap_path wr = path /\
      GetDBID_range order path = (dbWrap_id wr, None)) \/
  ((forall (k : Z) (wr : dbWrap), (k, wr) ∈ order -> dbWrap_path wr <> path) /\
   GetDBID_range order path = (-1, Some (leveldb_err ErrNotFound))).
Proof.
  induction order as [|[k wr] rest IH]; cbn [GetDBID_range].
  - right. split; [|reflexivity]. intros k wr Hin. now apply elem_of_nil in Hin.
  - case_bool_decide as Hp.
    + left. exists k, wr. split; [left|]. now split.
    + destruct IH as [(k' & wr' & Hin & Hp' & HG)|[Hnone HG]].
      * left. exists k', wr'. split; [now right|]. now split.
      * right. split; [|exact HG]. intros k' wr' Hin.
        apply elem_of_cons in Hin as [[= -> ->]|Hin]; [exact Hp|].
        now apply (Hnone k').
Qed.

(** X7. [GetDBID], in whatever order the map is visited: either it
    returns, with no error, the [id] field of a handle of the pool that
    has the path, or no handle of the pool has the path and it returns -1
    with the not-found error. *)
Theorem GetDBID_found_or_not (p : DBPool) (order : list (Z * dbWrap)) (path : string) :
  range_order p order ->
  (exists (k : Z) (wr : dbWrap),
      dbs p !! k = Some wr /\ dbWrap_path wr = path /\
      GetDBID p order path = (dbWrap_id wr, None)) \/
  ((forall (k : Z) (wr : dbWrap), dbs p !! k = Some wr -> dbWrap_path wr <> path) /\
   GetDBID p order path = (-1, Some (leveldb_err ErrNotFound))).
Proof.
  unfold range_order, GetDBID. intros Hperm.
  destruct (GetDBID_range_cases order path)
    as [(k & wr & Hin & Hp & HG)|[Hnone HG]].
  - left. exists k, wr. rewrite Hperm in Hin.
    apply elem_of_map_to_list in Hin. auto.
  - right. split; [|exact HG]. intros k wr Hl. apply (Hnone k).
    rewrite Hperm. now apply elem_of_map_to_list.
Qed.

Lemma reachable_id_field (p : DBPool) :
  reachable p ->
  forall (k : Z) (wr : dbWrap), dbs p !! k = Some wr -> dbWrap_id wr = k.
Proof.
  induction 1 as [|p p' id path dbType db isMetaDB _ IH HR
                  |p p' w w' dbInfo err _ IH HO]; intros k wr.
  - cbn. now rewrite lookup_empty.
  - assert (Hd : dbs p'
                 = <[id := {| dbWrap_id := id; dbWrap_db := db; dbWrap_path := path;
                              dbWrap_dbType := dbType; dbWrap_isMeta := isMetaDB |}]>
                     (dbs p)).
    { revert HR. unfold Register. cbn [metaDBID dbs].
      destruct isMetaDB; cbn [andb];
        [destruct (metaDBID p =? MinInt32); cbn [negb]; [|discriminate]|];
        now intros [= <-]. }
    rewrite Hd, lookup_insert. case_decide as Hk; [|apply IH].
    intros [= <-]. now subst.
  - revert HO. unfold Open.
    destruct (dbs p !! DBInfo_Id dbInfo) eqn:Hid; [intros [= <- _ _]; apply IH|].
    destruct (bool_decide (DbType dbInfo = "leveldb")); [|intros [= <- _ _]; apply IH].
    destruct (path_is_open p (DbPath dbInfo)); [intros [= <- _ _]; apply IH|].
    destruct (NewLDB w (DbPath dbInfo)) as [e|[h w1]]; [intros [= <- _ _]; apply IH|].
    cbn [metaDBID dbs]. intros HO.
    assert (Hd : dbs p'
                 = <[DBInfo_Id dbInfo :=
                       {| dbWrap_id := DBInfo_Id dbInfo; dbWrap_db := Some h;
                          dbWrap_path := DbPath dbInfo; dbWrap_dbType := DbType dbInfo;
                          dbWrap_isMeta := IsMeta dbInfo |}]> (dbs p)).
    { revert HO.
      destruct (IsMeta dbInfo); cbn [andb];
        [destruct (metaDBID p =? MinInt32); cbn [negb]|]; now intros [= <- _ _]. }
    rewrite Hd, lookup_insert. case_decide as Hk; [|apply IH].
    intros [= <-]. now subst.
Qed.

(** X8. In a pool a program can build, every handle is stored under its
    own [id]; so when [GetDBID] returns an identifier with no error,
    [GetDB] of that identifier succeeds, with a handle that has the
    path. *)
Theorem GetDB_after_GetDBID (p : DBPool) (order : list (Z * dbWrap))
    (path : string) (id : Z) :
  reachable p ->
  range_order p order ->
  GetDBID p order path = (id, None) ->
  exists wr : dbWrap,
    dbs p !! id = Some wr /\ dbWrap_id wr = id /\ dbWrap_path wr = path /\
    GetDB p id = (dbWrap_db wr, None).
Proof.
  unfold range_order, GetDBID. intros Hreach Hord HG.
  destruct (GetDBID_range_cases order path)
    as [(k & wr & Hl & Hp & HG')|[_ HG']]; rewrite HG in HG'; [|discriminate].
  rewrite Hord in Hl. apply elem_of_map_to_list in Hl.
  injection HG' as ->. exists wr.
  pose proof (reachable_id_field p Hreach k wr Hl) as Hk. rewrite Hk.
  unfold GetDB. rewrite Hl. auto.
Qed.

End Lookup.

(** ** More on [Open] and [Register] *)

Section Opening.
Context {E : Engine}.

Lemma path_is_open_false (p : DBPool) (path : string) :
  (forall (k : Z) (wr : dbWrap), dbs p !! k = Some wr -> dbWrap_path wr <> path) ->
  path_is_open p path = false.
Proof.
  intros Hnone. destruct (path_is_open p path) eqn:Hopen; [|reflexivity].
  apply path_is_open_true in Hopen as (k & wr & Hl & Hp). now destruct (Hnone k wr Hl).
Qed.

Lemma fresh_handle_unused (w : World) : w !! fresh (dom w) = None.
Proof. apply not_elem_of_dom. apply is_fresh. Qed.

(** X9. [Open] once more. When [Open] of a descriptor returned nil or
    [ErrMetaDBAlreadyRegistered], [Open] of the same descriptor on the
    pool it left returns nil and changes neither the pool nor the stores:
    after the error, the retry reports success. *)
Theorem Open_again_is_noop (p p1 : DBPool) (w w1 w2 : World) (dbInfo : DBInfo)
    (err : option error) :
  Open p w dbInfo = (p1, w1, err) ->
  err = None \/ err = Some ErrMetaDBAlreadyRegistered ->
  Open p1 w2 dbInfo = (p1, w2, None).
Proof.
  unfold Open at 1.
  destruct (dbs p !! DBInfo_Id dbInfo) eqn:Hid.
  { intros [= <- _ _] _. unfold Open. now rewrite Hid. }
  destruct (bool_decide (DbType dbInfo = "leveldb")) eqn:Hty.
  2:{ intros [= <- _ _] _. unfold Open. now rewrite Hid, Hty. }
  destruct (path_is_open p (DbPath dbInfo)) eqn:Hpath.
  { intros [= <- _ _] _. unfold Open. now rewrite Hid, Hty, Hpath. }
  destruct (NewLDB w (DbPath dbInfo)) as [e|[h w']].
  { intros [= _ _ <-] [|]; discriminate. }
  cbn [metaDBID dbs]. intros HO _.
  assert (Hin : is_Some (dbs p1 !! DBInfo_Id dbInfo)).
  { revert HO.
    destruct (IsMeta dbInfo); cbn [andb];
      [destruct (metaDBID p =? MinInt32); cbn [negb]|];
      intros [= <- _ _]; cbn [dbs]; rewrite lookup_insert_eq; eauto. }
  destruct Hin as [wr Hwr]. unfold Open. now rewrite Hwr.
Qed.

(** X10. What [Open] leaves alone: every handle of the pool and every
    opened store stay as they were, a designated metadata identifier
    stays designated, and when [Open] returns an error of the engine
    neither the pool nor the stores have changed. *)
Theorem Open_keeps_handles (p : DBPool) (w : World) (dbInfo : DBInfo) :
  (forall (k : Z) (wr : dbWrap),
      dbs p !! k = Some wr -> dbs (fst (fst (Open p w dbInfo))) !! k = Some wr) /\
  (forall (h : handle) (s : Store),
      w !! h = Some s -> snd (fst (Open p w dbInfo)) !! h = Some s) /\
  (metaDBID p <> MinInt32 -> metaDBID (fst (fst (Open p w dbInfo))) = metaDBID p) /\
  (forall e : engine_error,
      snd (Open p w dbInfo) = Some (leveldb_err e) ->
      fst (Open p w dbInfo) = (p, w)).
Proof.
  unfold Open.
  destruct (dbs p !! DBInfo_Id dbInfo) eqn:Hid; [cbn; auto|].
  destruct (bool_decide (DbType dbInfo = "leveldb")); [|cbn; auto].
  destruct (path_is_open p (DbPath dbInfo)); [cbn; auto|].
  unfold NewLDB. destruct (Store_Open (DbPath dbInfo) w) as [e|s]; [cbn; auto|].
  cbn [metaDBID dbs].
  assert (Hk : forall (k : Z) (wr : dbWrap) (x : dbWrap),
             dbs p !! k = Some wr -> <[DBInfo_Id dbInfo := x]> (dbs p) !! k = Some wr).
  { intros k wr x Hl. rewrite lookup_insert_ne; [exact Hl|]. intros <-. congruence. }
  assert (Hw : forall (h : handle) (s' : Store),
             w !! h = Some s' -> <[fresh (dom w) := s]> w !! h = Some s').
  { intros h s' Hl. rewrite lookup_insert_ne; [exact Hl|]. intros <-.
    rewrite fresh_handle_unused in Hl. discriminate. }
  destruct (IsMeta dbInfo); cbn [andb].
  - destruct (metaDBID p =? MinInt32) eqn:Hs; cbn [negb fst snd dbs metaDBID].
    + apply Z.eqb_eq in Hs. repeat split; auto; try discriminate. now intros [].
    + repeat split; auto; discriminate.
  - cbn [fst snd dbs metaDBID]. repeat split; auto; discriminate.
Qed.

(** X11. [Open] of a leveldb descriptor with a new identifier and a path
    no handle has, when the engine opens the store and the descriptor is
    not a second metadata store: it returns nil, the store is open under a
    reference that was not in use, [GetDB] of the identifier returns that
    reference, a flagged descriptor becomes the designated one, and
    [GetDBID] of the path returns the identifier in whatever order the map
    is visited. *)
Theorem Open_new_store (p : DBPool) (w : World) (dbInfo : DBInfo) (s : Store) :
  dbs p !! DBInfo_Id dbInfo = None ->
  DbType dbInfo = "leveldb" ->
  (forall (k : Z) (wr : dbWrap),
      dbs p !! k = Some wr -> dbWrap_path wr <> DbPath dbInfo) ->
  Store_Open (DbPath dbInfo) w = inr s ->
  IsMeta dbInfo = false \/ metaDBID p = MinInt32 ->
  exists (p' : DBPool) (w' : World) (h : handle),
    Open p w dbInfo = (p', w', None) /\
    w !! h = None /\ w' !! h = Some s /\
    GetDB p' (DBInfo_Id dbInfo) = (Some h, None) /\
    metaDBID p' = (if IsMeta dbInfo then DBInfo_Id dbInfo else metaDBID p) /\
    forall order : list (Z * dbWrap),
      range_order p' order ->
      GetDBID p' order (DbPath dbInfo) = (DBInfo_Id dbInfo, None).
Proof.
  intros Hid Hty Hpath Hopen Hmeta.
  set (wr0 := {| dbWrap_id := DBInfo_Id dbInfo; dbWrap_db := Some (fresh (dom w));
                 dbWrap_path := DbPath dbInfo; dbWrap_dbType := DbType dbInfo;
                 dbWrap_isMeta := IsMeta dbInfo |}).
  exists {| dbs := <[DBInfo_Id dbInfo := wr0]> (dbs p);
            metaDBID := if IsMeta dbInfo then DBInfo_Id dbInfo else metaDBID p |},
         (<[fresh (dom w) := s]> w), (fresh (dom w)).
  split.
  { subst wr0. unfold Open, NewLDB.
    rewrite Hid, (bool_decide_eq_true_2 _ Hty), (path_is_open_false p _ Hpath), Hopen.
    cbn [metaDBID dbs].
    destruct Hmeta as [Hm|Hm]; rewrite Hm; [reflexivity|].
    rewrite Z.eqb_refl. cbn [negb]. rewrite andb_false_r.
    destruct (IsMeta dbInfo); reflexivity. }
  split; [apply fresh_handle_unused|].
  split; [apply lookup_insert_eq|].
  split; [unfold GetDB; cbn [dbs]; now rewrite lookup_insert_eq|].
  split; [reflexivity|].
  unfold range_order, GetDBID. cbn [dbs]. intros order Hord.
  destruct (GetDBID_range_cases order (DbPath dbInfo))
    as [(k & wr & Hin & Hp & HG)|[Hnone _]].
  - rewrite HG. rewrite Hord in Hin. apply elem_of_map_to_list in Hin.
    rewrite lookup_insert in Hin. case_decide as Hk.
    + injection Hin as <-. reflexivity.
    + now destruct (Hpath k wr Hin).
  - exfalso. apply (Hnone (DBInfo_Id dbInfo) wr0); [|reflexivity].
    rewrite Hord. apply elem_of_map_to_list. apply lookup_insert_eq.
Qed.

(** X12. [math.MinInt32] as an identifier. [Register] of a metadata store
    under it, on a pool with none designated, returns, and the pool still
    has none designated: [GetBlockInfo] returns [ErrNoMetaDBRegistered],
    and a second [Register] with the flag returns too, although the pool
    holds a flagged handle. *)
Theorem Register_meta_at_MinInt32 (p : DBPool) (w : World) (path dbType : string)
    (db : option handle) :
  metaDBID p = MinInt32 ->
  snd (Register p MinInt32 path dbType db true) = Returns tt /\
  dbWrap_isMeta <$> dbs (fst (Register p MinInt32 path dbType db true)) !! MinInt32
    = Some true /\
  metaDBID (fst (Register p MinInt32 path dbType db true)) = MinInt32 /\
  GetBlockInfo (fst (Register p MinInt32 path dbType db true)) w
    = Returns (None, Some ErrNoMetaDBRegistered) /\
  forall (id' : Z) (path' dbType' : string) (db' : option handle),
    snd (Register (fst (Register p MinInt32 path dbType db true))
           id' path' dbType' db' true) = Returns tt.
Proof.
  intros Hm.
  assert (HR : Register p MinInt32 path dbType db true
               = ({| dbs := <[MinInt32 := {| dbWrap_id := MinInt32; dbWrap_db := db;
                                            dbWrap_path := path; dbWrap_dbType := dbType;
                                            dbWrap_isMeta := true |}]> (dbs p);
                     metaDBID := MinInt32 |}, Returns tt)).
  { unfold Register. cbn [metaDBID dbs andb]. rewrite Hm. reflexivity. }
  rewrite HR. cbn [fst snd dbs metaDBID].
  split; [reflexivity|]. split; [now rewrite lookup_insert_eq|].
  split; [reflexivity|]. split; [reflexivity|].
  intros id' path' dbType' db'. reflexivity.
Qed.

End Opening.

(** ** More on the checkpoint *)

Section Checkpoint_more.
Context {E : Engine}.

(** X13. The errors of [GetBlockInfo]. With no metadata store designated
    it returns [ErrNoMetaDBRegistered]; when [Get] fails with an error
    other than not found it returns that error and a nil record; when the
    designated handle holds the nil store it panics. *)
Theorem GetBlockInfo_errors (p : DBPool) (w : World) :
  (metaDBID p = MinInt32 ->
   GetBlockInfo p w = Returns (None, Some ErrNoMetaDBRegistered)) /\
  (forall (s : Store) (e : engine_error),
      meta_store p w s ->
      Store_Get s (bytes_of_string LastBlockInfo) = inl e ->
      e <> ErrNotFound ->
      GetBlockInfo p w = Returns (None, Some (leveldb_err e))) /\
  (metaDBID p <> MinInt32 ->
   dbWrap_db (dbs_index p (metaDBID p)) = None ->
   GetBlockInfo p w = Panics nil_dereference).
Proof.
  split; [|split].
  - intros Hm. unfold GetBlockInfo. now rewrite Hm.
  - intros s e Hmeta Hget Hne.
    rewrite (GetBlockInfo_meta_store p w s Hmeta), Hget.
    now rewrite bool_decide_eq_false_2.
  - intros Hm Hnil. unfold GetBlockInfo. apply Z.eqb_neq in Hm.
    now rewrite Hm, Hnil.
Qed.

(** X14. What [WriteBlockInfo] leaves alone: unless it returns nil the
    stores are as they were, and in every case a store other than the one
    of the designated handle is as it was. *)
Theorem WriteBlockInfo_touches_only_meta (p : DBPool) (w : World) (header : BlockInfo) :
  (snd (WriteBlockInfo p w header) <> Returns None ->
   fst (WriteBlockInfo p w header) = w) /\
  (forall h : handle,
      dbWrap_db (dbs_index p (metaDBID p)) <> Some h ->
      fst (WriteBlockInfo p w header) !! h = w !! h).
Proof.
  unfold WriteBlockInfo.
  destruct (metaDBID p =? MinInt32); [now split|].
  destruct (proto_Marshal header) as [e|buf]; [now split|].
  destruct (dbWrap_db (dbs_index p (metaDBID p))) as [h0|]; cbn [DB_NewBatch]; [|now split].
  unfold Batch_Put. cbn [Batch_ops Batch_db].
  destruct (Ops_Put _ _ _) as [e|ops]; [now split|].
  unfold Batch_Write. cbn [Batch_ops Batch_db].
  destruct (w !! h0) as [s|]; [|now split].
  destruct (Store_Write s ops) as [e|s']; [now split|].
  cbn [fst snd]. split; [intros Hne; now contradict Hne|].
  intros h Hh. rewrite lookup_insert_ne; [reflexivity|]. intros ->. now apply Hh.
Qed.

Lemma GetBlockInfo_reads_back (p : DBPool) (w w' : World) (s : Store)
    (header : BlockInfo) :
  write_is_durable ->
  meta_store p w s ->
  BlockInfo_typed header ->
  WriteBlockInfo p w header = (w', Returns None) ->
  GetBlockInfo p w'
    = Returns (Some (if bool_decide (header = BlockInfo_zero)
                     then header_init else header), None).
Proof.
  intros Hdur Hmeta Hty HW.
  destruct (WriteBlockInfo_meta_store p w w' s header Hmeta HW)
    as (buf & ops & s' & HM & HP & HS & Hmeta').
  rewrite (GetBlockInfo_meta_store p w' s' Hmeta'), (Hdur s s' _ buf ops HP HS).
  case_bool_decide as Hz.
  - subst header. rewrite proto_Marshal_zero in HM. now injection HM as <-.
  - destruct buf as [|c buf']; [destruct Hz; now apply proto_Marshal_nil|].
    replace (len (c :: buf') =? 0) with false
      by (symmetry; apply Z.eqb_neq; unfold len; cbn [length]; lia).
    now rewrite (proto_Unmarshal_Marshal header header_init _ Hty HM).
Qed.

(** X15. The last checkpoint wins: after two calls of [WriteBlockInfo]
    that return nil, [GetBlockInfo] returns the second record (for the
    record of zero values, the record with -1 and -1), whatever the first
    one was. *)
Theorem WriteBlockInfo_last_wins (p : DBPool) (w w1 w2 : World) (s : Store)
    (first second : BlockInfo) :
  write_is_durable ->
  meta_store p w s ->
  BlockInfo_typed second ->
  WriteBlockInfo p w first = (w1, Returns None) ->
  WriteBlockInfo p w1 second = (w2, Returns None) ->
  GetBlockInfo p w2
    = Returns (Some (if bool_decide (second = BlockInfo_zero)
                     then header_init else second), None).
Proof.
  intros Hdur Hmeta Hty H1 H2.
  destruct (WriteBlockInfo_meta_store p w w1 s first Hmeta H1)
    as (_ & _ & s1 & _ & _ & _ & Hmeta1).
  exact (GetBlockInfo_reads_back p w1 w2 s1 second Hdur Hmeta1 Hty H2).
Qed.

Lemma appendString_invalid (num : Z) (v : string) (b : bytes) :
  utf8_Valid (bytes_of_string v) = false ->
  appendStringNoZeroValidateUTF8 num v b
    = inl (proto_err "string field contains invalid UTF-8").
Proof.
  intros Hv. unfold appendStringNoZeroValidateUTF8. rewrite Hv.
  destruct (len (bytes_of_string v) =? 0) eqn:Hz; [|reflexivity].
  apply Z.eqb_eq, len_bytes_of_string_0 in Hz. subst v. discriminate Hv.
Qed.

Lemma appendString_inl (num : Z) (v : string) (b : bytes) (e : error) :
  appendStringNoZeroValidateUTF8 num v b = inl e ->
  e = proto_err "string field contains invalid UTF-8".
Proof.
  unfold appendStringNoZeroValidateUTF8.
  destruct (len (bytes_of_string v) =? 0); [discriminate|].
  destruct (utf8_Valid (bytes_of_string v)); [discriminate|]. now intros [= <-].
Qed.

(** X16. A record with a string field that is not valid UTF-8 is not
    written: with a metadata store designated, [WriteBlockInfo] returns
    the error of [proto.Marshal] and leaves the stores as they were, even
    when the designated handle holds the nil store. *)
Theorem WriteBlockInfo_invalid_UTF8 (p : DBPool) (w : World) (header : BlockInfo) :
  metaDBID p <> MinInt32 ->
  utf8_Valid (bytes_of_string (ChainId header)) = false \/
  utf8_Valid (bytes_of_string (Env header)) = false \/
  utf8_Valid (bytes_of_string (BlockHash header)) = false ->
  WriteBlockInfo p w header
    = (w, Returns (Some (proto_err "string field contains invalid UTF-8"))).
Proof.
  intros Hm Hbad. unfold WriteBlockInfo. apply Z.eqb_neq in Hm. rewrite Hm.
  assert (HM : proto_Marshal header
               = inl (proto_err "string field contains invalid UTF-8")).
  { unfold proto_Marshal.
    destruct (appendStringNoZeroValidateUTF8 1 _ _) as [e1|b1] eqn:H1;
      [now rewrite (appendString_inl _ _ _ _ H1)|].
    destruct (appendStringNoZeroValidateUTF8 2 _ _) as [e2|b2] eqn:H2;
      [now rewrite (appendString_inl _ _ _ _ H2)|].
    destruct (appendStringNoZeroValidateUTF8 4 _ _) as [e4|b4] eqn:H4;
      [now rewrite (appendString_inl _ _ _ _ H4)|].
    destruct Hbad as [Hb|[Hb|Hb]].
    - rewrite (appendString_invalid _ _ _ Hb) in H1. discriminate.
    - rewrite (appendString_invalid _ _ _ Hb) in H2. discriminate.
    - rewrite (appendString_invalid _ _ _ Hb) in H4. discriminate. }
  now rewrite HM.
Qed.

(** X17. The getters on what [GetBlockInfo] returns. When the bytes under
    the key do not deserialize, the record is nil and every getter returns
    the zero value of its field: block number 0 and message offset 0.
    When the key is absent the getters return -1 and -1. *)
Theorem getters_after_GetBlockInfo (p : DBPool) (w : World) (s : Store) :
  meta_store p w s ->
  (forall (buf : bytes) (e : error),
      Store_Get s (bytes_of_string LastBlockInfo) = inr buf ->
      proto_Unmarshal buf header_init = inl e ->
      exists x : option BlockInfo,
        GetBlockInfo p w = Returns (x, None) /\
        GetBlockNum x = 0 /\ GetMsgOffset x = 0 /\ GetBlockSize x = 0 /\
        GetBlockType x = BlockInfo_UNKNOWN /\
        GetChainId x = "" /\ GetEnv x = "" /\ GetBlockHash x = "") /\
  (Store_Get s (bytes_of_string LastBlockInfo) = inl ErrNotFound ->
   exists x : option BlockInfo,
     GetBlockInfo p w = Returns (x, None) /\
     GetBlockNum x = -1 /\ GetMsgOffset x = -1).
Proof.
  intros Hmeta. rewrite (GetBlockInfo_meta_store p w s Hmeta). split.
  - intros buf e Hget Hbad. rewrite Hget. exists None.
    destruct buf as [|c buf']; [discriminate Hbad|].
    replace (len (c :: buf') =? 0) with false
      by (symmetry; apply Z.eqb_neq; unfold len; cbn [length]; lia).
    rewrite Hbad. repeat split.
  - intros Habs. rewrite Habs. exists (Some header_init).
    rewrite bool_decide_eq_true_2 by reflexivity. repeat split.
Qed.

(** X22. The first metadata store. On a pool with none designated,
    [Register] with the flag, of an opened store under an identifier other
    than [math.MinInt32], returns and designates it: [GetBlockInfo] then
    reads that store, and returns the record with -1 and -1 as long as
    the key is absent from it. *)
Theorem Register_first_meta (p : DBPool) (w : World) (id : Z) (path dbType : string)
    (h : handle) (s : Store) :
  metaDBID p = MinInt32 ->
  id <> MinInt32 ->
  w !! h = Some s ->
  snd (Register p id path dbType (Some h) true) = Returns tt /\
  metaDBID (fst (Register p id path dbType (Some h) true)) = id /\
  meta_store (fst (Register p id path dbType (Some h) true)) w s /\
  (Store_Get s (bytes_of_string LastBlockInfo) = inl ErrNotFound ->
   GetBlockInfo (fst (Register p id path dbType (Some h) true)) w
     = Returns (Some header_init, None)).
Proof.
  intros Hm Hid Hs.
  assert (HR : Register p id path dbType (Some h) true
               = ({| dbs := <[id := {| dbWrap_id := id; dbWrap_db := Some h;
                                      dbWrap_path := path; dbWrap_dbType := dbType;
                                      dbWrap_isMeta := true |}]> (dbs p);
                     metaDBID := id |}, Returns tt)).
  { unfold Register. cbn [metaDBID dbs andb]. rewrite Hm. reflexivity. }
  rewrite HR. cbn [fst snd].
  match goal with |- _ /\ _ /\ meta_store ?q _ _ /\ _ =>
    assert (Hmeta : meta_store q w s) end.
  { split; [exact Hid|]. cbn [dbs metaDBID]. eexists _, h.
    split; [apply lookup_insert_eq|]. now split. }
  split; [reflexivity|]. split; [reflexivity|]. split; [exact Hmeta|].
  intros Habs. rewrite (GetBlockInfo_meta_store _ w s Hmeta), Habs.
  now rewrite bool_decide_eq_true_2.
Qed.

End Checkpoint_more.

(** ** More on batches *)

Section Batches_more.
Context {E : Engine}.

Lemma WriteBatchItems_app (p : DBPool) (pre rest : list BatchItem) :
  forall w w1 : World,
    committed_items p w pre = Some w1 ->
    WriteBatchItems p w (pre ++ rest) = WriteBatchItems p w1 rest.
Proof.
  induction pre as [|it pre IH]; intros w w1; cbn [committed_items app WriteBatchItems].
  - now intros [= ->].
  - unfold dbs_index.
    destruct (dbs p !! BatchItem_Id it) as [[i [h|] pa ty me]|]; try discriminate.
    cbn [from_option id dbWrap_db DB_NewBatch]. unfold Batch_Load. cbn [Batch_ops Batch_db].
    destruct (Ops_Load Ops_new (Data it)) as [e|ops]; [discriminate|].
    destruct (Batch_Write w _) as [w2 [[e|]|msg]]; try discriminate.
    apply IH.
Qed.

(** X18. [WriteBatchItems] stops at the first item that fails. After items
    that were all written, at an item for a registered store: when [Load]
    of its data fails, or when the write of the loaded batch fails, the
    call returns that error, the stores are as the items before left them,
    and the items after it are not written. *)
Theorem WriteBatchItems_stops_at_first_failure (p : DBPool) (w w1 : World)
    (pre post : list BatchItem) (item : BatchItem) (wr : dbWrap) (h : handle) :
  committed_items p w pre = Some w1 ->
  dbs p !! BatchItem_Id item = Some wr ->
  dbWrap_db wr = Some h ->
  (forall e : engine_error,
      Ops_Load Ops_new (Data item) = inl e ->
      WriteBatchItems p w (pre ++ item :: post)
        = (w1, Returns (Some (leveldb_err e)))) /\
  (forall (ops : Ops) (err : error),
      Ops_Load Ops_new (Data item) = inr ops ->
      snd (Batch_Write w1 {| Batch_db := h; Batch_ops := ops |}) = Returns (Some err) ->
      WriteBatchItems p w (pre ++ item :: post) = (w1, Returns (Some err))).
Proof.
  intros Hpre Hwr Hdb.
  rewrite (WriteBatchItems_app p pre (item :: post) w w1 Hpre).
  cbn [WriteBatchItems]. unfold dbs_index. rewrite Hwr. cbn [from_option id].
  rewrite Hdb. cbn [DB_NewBatch]. unfold Batch_Load. cbn [Batch_ops Batch_db].
  split.
  - intros e He. now rewrite He.
  - intros ops err Hops Hfail. rewrite Hops.
    unfold Batch_Write in *. cbn [Batch_ops Batch_db] in *.
    destruct (w1 !! h) as [s|]; [|discriminate Hfail].
    destruct (Store_Write s ops) as [e|s']; [|discriminate Hfail].
    cbn [snd] in Hfail. now injection Hfail as <-.
Qed.

Lemma Batch_Write_other (w : World) (b : Batch) (h : handle) :
  Batch_db b <> h -> fst (Batch_Write w b) !! h = w !! h.
Proof.
  intros Hne. unfold Batch_Write.
  destruct (w !! Batch_db b) as [s|]; [|reflexivity].
  destruct (Store_Write s (Batch_ops b)) as [e|s']; [reflexivity|].
  cbn [fst]. now rewrite lookup_insert_ne.
Qed.

(** X19. [WriteBatchs] changes no store but those of its batches: a store
    that no batch of the list was created from is as it was, whether the
    call returns nil, returns an error or panics. *)
Theorem WriteBatchs_touches_only_targets (p : DBPool) (batchs : list BatchWithID)
    (h : handle) :
  Forall (fun item => Batch_db (B item) <> h) batchs ->
  forall w : World, fst (WriteBatchs p w batchs) !! h = w !! h.
Proof.
  induction 1 as [|item rest Hne _ IH]; intros w; cbn [WriteBatchs]; [reflexivity|].
  pose proof (Batch_Write_other w (B item) h Hne) as Hw.
  destruct (Batch_Write w (B item)) as [w1 [[e|]|msg]]; cbn [fst] in *;
    try exact Hw.
  now rewrite IH.
Qed.

(** X20. [WriteBatchItems] changes no store but those registered under the
    identifiers of its items: a store that the pool holds under none of
    them is as it was, whether the call returns nil, returns an error or
    panics. *)
Theorem WriteBatchItems_touches_only_targets (p : DBPool) (items : list BatchItem)
    (h : handle) :
  Forall (fun item => dbWrap_db (dbs_index p (BatchItem_Id item)) <> Some h) items ->
  forall w : World, fst (WriteBatchItems p w items) !! h = w !! h.
Proof.
  induction 1 as [|item rest Hne _ IH]; intros w; cbn [WriteBatchItems]; [reflexivity|].
  destruct (dbWrap_db (dbs_index p (BatchItem_Id item))) as [h0|];
    cbn [DB_NewBatch]; [|reflexivity].
  unfold Batch_Load. cbn [Batch_ops Batch_db].
  destruct (Ops_Load Ops_new (Data item)) as [e|ops]; [reflexivity|].
  assert (Hh : Batch_db {| Batch_db := h0; Batch_ops := ops |} <> h)
    by (cbn; intros ->; now apply Hne).
  pose proof (Batch_Write_other w _ h Hh) as Hw.
  destruct (Batch_Write w _) as [w1 [[e|]|msg]]; cbn [fst] in *; try exact Hw.
  now rewrite IH.
Qed.

(** X21. [Marshal] returns no error and one item for every batch, at the
    same position: the item at position [i] has the identifier of the
    batch at [i], converted to [int32], and its dump. *)
Theorem Marshal_keeps_order (p : DBPool) (batchs : list BatchWithID) :
  snd (Marshal p batchs) = None /\
  length (fst (Marshal p batchs)) = length batchs /\
  forall i : nat,
    fst (Marshal p batchs) !! i
    = (fun item => {| BatchItem_Id := int32 (ID item); Data := Batch_Dump (B item) |})
        <$> batchs !! i.
Proof.
  rewrite Marshal_items. cbn [fst snd].
  split; [reflexivity|]. split; [apply length_map|].
  intros i. apply list_lookup_fmap.
Qed.

End Batches_more.

(** ** The pool at work

    The theorems above, at the pool of three stores on the engine in
    memory. *)

Lemma mem_write_is_durable : write_is_durable (E := memEngine).
Proof.
  intros s s' key value ops HP HW. cbn in *.
  unfold mem_Put in HP. injection HP as <-.
  unfold mem_Write in HW. destruct (mem_closed s) eqn:Hc; [discriminate|].
  injection HW as <-. unfold mem_Get, mem_lookup, mem_insert. cbn.
  now rewrite bool_decide_eq_true_2.
Qed.

Lemma ex_meta_store : meta_store (E := memEngine) ex_pool ex_world mem_empty.
Proof.
  split; [vm_compute; discriminate|].
  exists {| dbWrap_id := 1; dbWrap_db := Some 1%positive; dbWrap_path := "/data/meta";
            dbWrap_dbType := "leveldb"; dbWrap_isMeta := true |}, 1%positive.
  repeat split; vm_compute; reflexivity.
Qed.

Lemma ex_header_typed : BlockInfo_typed ex_header.
Proof.
  unfold BlockInfo_typed, is_int64, is_int32.
  repeat split; vm_compute; first [reflexivity | discriminate].
Qed.

Lemma Register_second_meta_panics_witness :
  metaDBID ex_pool <> MinInt32 /\
  snd (Register ex_pool 5 "/data/other" "leveldb" None true)
    = Panics "meta db already registered".
Proof.
  split; [vm_compute; discriminate|].
  apply Register_second_meta_panics. vm_compute. discriminate.
Defined.

Lemma Open_same_path_drops_identifier_witness :
  Open (E := memEngine) ex_pool ex_world
    {| DBInfo_Id := 7; DbType := "leveldb"; DbPath := "/data/chain"; IsMeta := false |}
    = (ex_pool, ex_world, None) /\
  GetDB (fst (fst (Open (E := memEngine) ex_pool ex_world
                     {| DBInfo_Id := 7; DbType := "leveldb"; DbPath := "/data/chain";
                        IsMeta := false |}))) 7
    = (None, Some (leveldb_err ErrNotFound)).
Proof.
  apply (Open_same_path_drops_identifier (E := memEngine) ex_pool ex_world
           {| DBInfo_Id := 7; DbType := "leveldb"; DbPath := "/data/chain";
              IsMeta := false |}).
  - vm_compute. reflexivity.
  - reflexivity.
  - exists 3, {| dbWrap_id := 3; dbWrap_db := Some 2%positive;
                 dbWrap_path := "/data/chain"; dbWrap_dbType := "leveldb";
                 dbWrap_isMeta := false |}.
    split; vm_compute; reflexivity.
Defined.

Lemma Open_duplicate_meta_keeps_handle_witness :
  exists h : handle,
    GetDB ex_pool_second_meta 8 = (Some h, None) /\
    is_Some (snd (fst (Open (E := memEngine) ex_pool ex_world ex_second_meta)) !! h) /\
    dbs ex_pool_second_meta !! 8
      = Some {| dbWrap_id := 8; dbWrap_db := Some h; dbWrap_path := "/data/meta2";
                dbWrap_dbType := "leveldb"; dbWrap_isMeta := true |} /\
    metaDBID ex_pool_second_meta = metaDBID ex_pool /\
    IsMeta ex_second_meta = true /\ metaDBID ex_pool <> MinInt32 /\
    dbs ex_pool !! 8 = None.
Proof.
  apply (Open_duplicate_meta_keeps_handle (E := memEngine)
           ex_pool ex_pool_second_meta ex_world
           (snd (fst (Open (E := memEngine) ex_pool ex_world ex_second_meta)))
           ex_second_meta).
  vm_compute. reflexivity.
Defined.

Lemma Open_other_engine_is_noop_witness :
  Open (E := memEngine) ex_pool ex_world
    {| DBInfo_Id := 7; DbType := "rocksdb"; DbPath := "/data/rocks"; IsMeta := false |}
    = (ex_pool, ex_world, None) /\
  GetDB (fst (fst (Open (E := memEngine) ex_pool ex_world
                     {| DBInfo_Id := 7; DbType := "rocksdb"; DbPath := "/data/rocks";
                        IsMeta := false |}))) 7
    = (None, Some (leveldb_err ErrNotFound)).
Proof.
  apply (Open_other_engine_is_noop (E := memEngine) ex_pool ex_world
           {| DBInfo_Id := 7; DbType := "rocksdb"; DbPath := "/data/rocks";
              IsMeta := false |}).
  - vm_compute. reflexivity.
  - cbn. discriminate.
Defined.

Lemma GetBlockInfo_after_WriteBlockInfo_witness :
  GetBlockInfo (E := memEngine) ex_pool ex_world = Returns (Some header_init, None) /\
  GetBlockInfo (E := memEngine) ex_pool
    (fst (WriteBlockInfo (E := memEngine) ex_pool ex_world ex_header))
    = Returns (Some ex_header, None).
Proof.
  destruct (GetBlockInfo_after_WriteBlockInfo (E := memEngine) ex_pool ex_world mem_empty
              mem_write_is_durable ex_meta_store) as [Habsent Hwritten].
  split.
  - apply Habsent. vm_compute. reflexivity.
  - apply (Hwritten ex_header
             (fst (WriteBlockInfo (E := memEngine) ex_pool ex_world ex_header))
             ex_header_typed).
    vm_compute. reflexivity.
Defined.

(** C4 as stated fails at the zero value [BlockInfo{}]: [WriteBlockInfo]
    of it returns nil, and [GetBlockInfo] then returns the record with -1
    and -1, which is another record. *)
Lemma GetBlockInfo_after_WriteBlockInfo_zero :
  meta_store (E := memEngine) ex_pool ex_world mem_empty /\
  BlockInfo_typed BlockInfo_zero /\
  snd (WriteBlockInfo (E := memEngine) ex_pool ex_world BlockInfo_zero) = Returns None /\
  GetBlockInfo (E := memEngine) ex_pool
    (fst (WriteBlockInfo (E := memEngine) ex_pool ex_world BlockInfo_zero))
    = Returns (Some header_init, None) /\
  header_init <> BlockInfo_zero.
Proof.
  split; [exact ex_meta_store|].
  split.
  { unfold BlockInfo_typed, is_int64, is_int32.
    repeat split; vm_compute; first [reflexivity | discriminate]. }
  split; [vm_compute; reflexivity|].
  split; [vm_compute; reflexivity|discriminate].
Qed.

Lemma ex_meta_store_corrupt :
  meta_store (E := memEngine) ex_pool ex_world_corrupt
    {| mem_closed := false;
       mem_data := [(bytes_of_string LastBlockInfo, [Byte.xff])] |}.
Proof.
  split; [vm_compute; discriminate|].
  exists {| dbWrap_id := 1; dbWrap_db := Some 1%positive; dbWrap_path := "/data/meta";
            dbWrap_dbType := "leveldb"; dbWrap_isMeta := true |}, 1%positive.
  repeat split; vm_compute; reflexivity.
Qed.

Lemma GetBlockInfo_undecodable_witness :
  GetBlockInfo (E := memEngine) ex_pool ex_world_corrupt = Returns (None, None) /\
  GetBlockInfo (E := memEngine) ex_pool ex_world = Returns (Some header_init, None) /\
  GetBlockInfo (E := memEngine) ex_pool ex_world_corrupt
    <> GetBlockInfo (E := memEngine) ex_pool ex_world.
Proof.
  destruct (GetBlockInfo_undecodable (E := memEngine) ex_pool ex_world_corrupt
              {| mem_closed := false;
                 mem_data := [(bytes_of_string LastBlockInfo, [Byte.xff])] |}
              [Byte.xff] (proto_err "cannot parse invalid wire-format data")
              ex_meta_store_corrupt)
    as [Hnil Hdiffer].
  - vm_compute. reflexivity.
  - vm_compute. reflexivity.
  - split; [exact Hnil|].
    apply (Hdiffer ex_world mem_empty ex_meta_store).
    vm_compute. reflexivity.
Defined.

(** C5 as stated fails: with the one byte 0xff under the key, which is no
    message, [GetBlockInfo] returns a nil record; with no key it returns
    the record with -1 and -1. A caller tells the two apart. *)
Lemma GetBlockInfo_undecodable_differs :
  Store_Get (Engine := memEngine)
    {| mem_closed := false;
       mem_data := [(bytes_of_string LastBlockInfo, [Byte.xff])] |}
    (bytes_of_string LastBlockInfo) = inr [Byte.xff] /\
  proto_Unmarshal [Byte.xff] header_init
    = inl (proto_err "cannot parse invalid wire-format data") /\
  Store_Get (Engine := memEngine) mem_empty (bytes_of_string LastBlockInfo)
    = inl ErrNotFound /\
  GetBlockInfo (E := memEngine) ex_pool ex_world_corrupt = Returns (None, None) /\
  GetBlockInfo (E := memEngine) ex_pool ex_world = Returns (Some header_init, None) /\
  GetBlockInfo (E := memEngine) ex_pool ex_world_corrupt
    <> GetBlockInfo (E := memEngine) ex_pool ex_world.
Proof.
  repeat split; try (vm_compute; reflexivity).
  vm_compute. discriminate.
Qed.

Lemma WriteBatchs_stops_at_first_failure_witness :
  committed (E := memEngine) ex_world [ {| ID := 3; B := ex_batch 2 "k1" "v1" |} ]
    = Some ex_world_k1 /\
  WriteBatchs (E := memEngine) ex_pool ex_world ex_batchs
    = (ex_world_k1, Returns (Some (leveldb_err (ErrEngine "leveldb: closed")))).
Proof.
  split; [vm_compute; reflexivity|].
  apply (proj2 (WriteBatchs_stops_at_first_failure (E := memEngine)
                  ex_pool ex_world ex_batchs)
           [ {| ID := 3; B := ex_batch 2 "k1" "v1" |} ]
           [ {| ID := 3; B := ex_batch 2 "k3" "v3" |} ]
           {| ID := 4; B := ex_batch 3 "k2" "v2" |}).
  - reflexivity.
  - vm_compute. reflexivity.
  - vm_compute. reflexivity.
Defined.

Lemma WriteBatchItems_Marshal_witness :
  snd (Marshal (E := memEngine) ex_pool ex_batchs) = None /\
  WriteBatchItems (E := memEngine) ex_pool ex_world
    (fst (Marshal (E := memEngine) ex_pool ex_batchs))
    = WriteBatchs (E := memEngine) ex_pool ex_world ex_batchs.
Proof.
  apply (WriteBatchItems_Marshal (E := memEngine) ex_pool ex_batchs).
  unfold ex_batchs.
  repeat apply List.Forall_cons; try apply List.Forall_nil;
    (split; [split; [vm_compute; split; [discriminate|reflexivity]|]
            | vm_compute; reflexivity]).
  - exists {| dbWrap_id := 3; dbWrap_db := Some 2%positive; dbWrap_path := "/data/chain";
              dbWrap_dbType := "leveldb"; dbWrap_isMeta := false |}.
    split; vm_compute; reflexivity.
  - exists {| dbWrap_id := 4; dbWrap_db := Some 3%positive; dbWrap_path := "/data/state";
              dbWrap_dbType := "leveldb"; dbWrap_isMeta := false |}.
    split; vm_compute; reflexivity.
  - exists {| dbWrap_id := 3; dbWrap_db := Some 2%positive; dbWrap_path := "/data/chain";
              dbWrap_dbType := "leveldb"; dbWrap_isMeta := false |}.
    split; vm_compute; reflexivity.
Defined.

(** C1, on the code. Of three items, the second for the identifier 9 the
    pool does not hold: [WriteBatchItems] writes the first, then panics on
    the nil store of the zero handle; the third is not written. [GetDB]
    of 9 on the same pool returns the not-found error. *)
Theorem WriteBatchItems_unregistered_panics :
  WriteBatchItems (E := memEngine) ex_pool ex_world ex_items
    = (ex_world_k1, Panics nil_dereference) /\
  dbs ex_pool !! 9 = None /\
  GetDB ex_pool 9 = (None, Some (leveldb_err ErrNotFound)).
Proof.
  repeat split; vm_compute; reflexivity.
Qed.

Lemma WriteBatchItems_unregistered_witness :
  WriteBatchItems (E := memEngine) ex_pool ex_world
    ([ {| BatchItem_Id := 3; Data := Batch_Dump (ex_batch 2 "k1" "v1") |} ]
     ++ {| BatchItem_Id := 9; Data := Batch_Dump (ex_batch 2 "k2" "v2") |}
     :: [ {| BatchItem_Id := 3; Data := Batch_Dump (ex_batch 2 "k3" "v3") |} ])
    = (ex_world_k1, Panics nil_dereference).
Proof.
  apply (WriteBatchItems_unregistered (E := memEngine) ex_pool ex_world ex_world_k1
           [ {| BatchItem_Id := 3; Data := Batch_Dump (ex_batch 2 "k1" "v1") |} ]
           [ {| BatchItem_Id := 3; Data := Batch_Dump (ex_batch 2 "k3" "v3") |} ]
           {| BatchItem_Id := 9; Data := Batch_Dump (ex_batch 2 "k2" "v2") |});
    vm_compute; reflexivity.
Defined.

Lemma ex_pool_reachable : reachable (E := memEngine) ex_pool.
Proof.
  apply (reachable_Register ex_pool_chain ex_pool 4 "/data/state" "leveldb"
           (Some 3%positive) false); [|vm_compute; reflexivity].
  apply (reachable_Register ex_pool_meta ex_pool_chain 3 "/data/chain" "leveldb"
           (Some 2%positive) false); [|vm_compute; reflexivity].
  apply (reachable_Register NewDBPool ex_pool_meta 1 "/data/meta" "leveldb"
           (Some 1%positive) true); [|vm_compute; reflexivity].
  apply reachable_New.
Qed.

(** C2, on the code. After [Register] of a metadata store, [Open] of a
    descriptor flagged as metadata returns an error, not a panic, and
    leaves two handles with the flag; and [Register] of the metadata
    identifier once more without the flag leaves the designated identifier
    at a handle without it. Both pools are reachable. *)
Theorem registry_invariant_broken :
  (reachable (E := memEngine) ex_pool_second_meta /\
   snd (Open (E := memEngine) ex_pool ex_world ex_second_meta)
     = Some ErrMetaDBAlreadyRegistered /\
   dbWrap_isMeta <$> dbs ex_pool_second_meta !! 1 = Some true /\
   dbWrap_isMeta <$> dbs ex_pool_second_meta !! 8 = Some true /\
   ~ at_most_one_meta ex_pool_second_meta) /\
  (reachable (E := memEngine) ex_pool_overwritten /\
   metaDBID ex_pool_overwritten = 1 /\
   dbWrap_isMeta <$> dbs ex_pool_overwritten !! 1 = Some false /\
   ~ designated_is_meta ex_pool_overwritten).
Proof.
  split.
  - split.
    { apply (reachable_Open (E := memEngine) ex_pool ex_pool_second_meta ex_world
               (snd (fst (Open (E := memEngine) ex_pool ex_world ex_second_meta)))
               ex_second_meta (Some ErrMetaDBAlreadyRegistered));
        [apply ex_pool_reachable|vm_compute; reflexivity]. }
    split; [vm_compute; reflexivity|].
    split; [vm_compute; reflexivity|].
    split; [vm_compute; reflexivity|].
    intros Hone.
    specialize (Hone 1 8
      {| dbWrap_id := 1; dbWrap_db := Some 1%positive; dbWrap_path := "/data/meta";
         dbWrap_dbType := "leveldb"; dbWrap_isMeta := true |}
      {| dbWrap_id := 8; dbWrap_db := Some 4%positive; dbWrap_path := "/data/meta2";
         dbWrap_dbType := "leveldb"; dbWrap_isMeta := true |}).
    discriminate Hone; vm_compute; reflexivity.
  - split.
    { apply (reachable_Register ex_pool ex_pool_overwritten 1 "/data/meta" "leveldb"
               (Some 1%positive) false);
        [apply ex_pool_reachable|vm_compute; reflexivity]. }
    split; [vm_compute; reflexivity|].
    split; [vm_compute; reflexivity|].
    intros Hdes. destruct Hdes as (wr & Hwr & Hflag); [vm_compute; discriminate|].
    assert (Hl : dbs ex_pool_overwritten !! 1
                 = Some {| dbWrap_id := 1; dbWrap_db := Some 1%positive;
                           dbWrap_path := "/data/meta"; dbWrap_dbType := "leveldb";
                           dbWrap_isMeta := false |}) by (vm_compute; reflexivity).
    change (metaDBID ex_pool_overwritten) with 1 in Hwr.
    rewrite Hl in Hwr. injection Hwr as <-. discriminate Hflag.
Qed.

Lemma reachable_designated_registered_witness :
  is_Some (dbs ex_pool !! metaDBID ex_pool).
Proof.
  apply (reachable_designated_registered (E := memEngine) ex_pool ex_pool_reachable).
  vm_compute. discriminate.
Defined.

Lemma WriteBlockInfo_without_meta_store_witness :
  WriteBlockInfo (E := memEngine) NewDBPool ex_world ex_header
    = (ex_world, Returns (Some ErrNoMetaDBRegistered)).
Proof.
  apply (WriteBlockInfo_without_meta_store (E := memEngine) NewDBPool ex_world ex_header).
  reflexivity.
Defined.

Lemma ex_pool_orderly : orderly (E := memEngine) ex_pool.
Proof.
  apply (orderly_Register ex_pool_chain ex_pool 4 "/data/state" "leveldb"
           (Some 3%positive) false);
    [|vm_compute; reflexivity|vm_compute; discriminate|vm_compute; reflexivity].
  apply (orderly_Register ex_pool_meta ex_pool_chain 3 "/data/chain" "leveldb"
           (Some 2%positive) false);
    [|vm_compute; reflexivity|vm_compute; discriminate|vm_compute; reflexivity].
  apply (orderly_Register NewDBPool ex_pool_meta 1 "/data/meta" "leveldb"
           (Some 1%positive) true);
    [|vm_compute; reflexivity|vm_compute; discriminate|vm_compute; reflexivity].
  apply orderly_New.
Qed.

Lemma orderly_invariant_witness :
  at_most_one_meta ex_pool /\ designated_is_meta ex_pool.
Proof. exact (orderly_invariant (E := memEngine) ex_pool ex_pool_orderly). Defined.

(** ** The rest of the pool at work *)

Lemma ex_order_is_range : range_order ex_pool ex_order.
Proof. unfold range_order, ex_order. reflexivity. Qed.

Lemma ex_paths_differ (path : string) :
  path_is_open ex_pool path = false ->
  forall (k : Z) (wr : dbWrap), dbs ex_pool !! k = Some wr -> dbWrap_path wr <> path.
Proof.
  intros Hclosed k wr Hl Hp.
  assert (Hopen : path_is_open ex_pool path = true)
    by (apply path_is_open_true; eauto).
  congruence.
Qed.

Lemma GetDBInfo_lists_every_handle_witness :
  exists infos : list DBInfo,
    GetDBInfo ex_pool ex_order = (Some {| DbInfos := infos |}, None) /\
    length infos = size (dbs ex_pool) /\
    NoDup (DBInfo_Id <$> infos) /\
    forall d : DBInfo,
      d ∈ infos <->
      exists wr : dbWrap,
        dbs ex_pool !! DBInfo_Id d = Some wr /\ DbType d = dbWrap_dbType wr /\
        DbPath d = dbWrap_path wr /\ IsMeta d = dbWrap_isMeta wr.
Proof.
  apply (proj2 (GetDBInfo_lists_every_handle ex_pool ex_order ex_order_is_range)).
  vm_compute. discriminate.
Defined.

Lemma GetDBID_found_or_not_witness :
  (exists (k : Z) (wr : dbWrap),
      dbs ex_pool !! k = Some wr /\ dbWrap_path wr = "/data/chain" /\
      GetDBID ex_pool ex_order "/data/chain" = (dbWrap_id wr, None)) \/
  ((forall (k : Z) (wr : dbWrap),
       dbs ex_pool !! k = Some wr -> dbWrap_path wr <> "/data/chain") /\
   GetDBID ex_pool ex_order "/data/chain" = (-1, Some (leveldb_err ErrNotFound))).
Proof.
  exact (GetDBID_found_or_not ex_pool ex_order "/data/chain" ex_order_is_range).
Defined.

Lemma GetDB_after_GetDBID_witness :
  exists wr : dbWrap,
    dbs ex_pool !! 3 = Some wr /\ dbWrap_id wr = 3 /\
    dbWrap_path wr = "/data/chain" /\ GetDB ex_pool 3 = (dbWrap_db wr, None).
Proof.
  apply (GetDB_after_GetDBID (E := memEngine) ex_pool ex_order "/data/chain" 3
           ex_pool_reachable ex_order_is_range).
  vm_compute. reflexivity.
Defined.

Lemma Open_again_is_noop_witness :
  Open (E := memEngine) ex_pool_second_meta ex_world ex_second_meta
    = (ex_pool_second_meta, ex_world, None).
Proof.
  apply (Open_again_is_noop (E := memEngine) ex_pool ex_pool_second_meta ex_world
           (snd (fst (Open (E := memEngine) ex_pool ex_world ex_second_meta)))
           ex_world ex_second_meta (Some ErrMetaDBAlreadyRegistered)).
  - vm_compute. reflexivity.
  - right. reflexivity.
Defined.

Lemma Open_new_store_witness :
  exists (p' : DBPool) (w' : gmap positive MemStore) (h : handle),
    Open (E := memEngine) ex_pool ex_world ex_new_store = (p', w', None) /\
    ex_world !! h = None /\ w' !! h = Some mem_empty /\
    GetDB p' 7 = (Some h, None) /\
    metaDBID p' = metaDBID ex_pool /\
    forall order : list (Z * dbWrap),
      range_order p' order -> GetDBID p' order "/data/new" = (7, None).
Proof.
  apply (Open_new_store (E := memEngine) ex_pool ex_world ex_new_store mem_empty).
  - vm_compute. reflexivity.
  - reflexivity.
  - apply ex_paths_differ. vm_compute. reflexivity.
  - vm_compute. reflexivity.
  - left. reflexivity.
Defined.

Lemma Register_meta_at_MinInt32_witness :
  snd (Register NewDBPool MinInt32 "/data/meta" "leveldb" (Some 1%positive) true)
    = Returns tt /\
  GetBlockInfo (E := memEngine)
    (fst (Register NewDBPool MinInt32 "/data/meta" "leveldb" (Some 1%positive) true))
    ex_world
    = Returns (None, Some ErrNoMetaDBRegistered) /\
  snd (Register
         (fst (Register NewDBPool MinInt32 "/data/meta" "leveldb" (Some 1%positive) true))
         3 "/data/chain" "leveldb" (Some 2%positive) true)
    = Returns tt.
Proof.
  destruct (Register_meta_at_MinInt32 (E := memEngine) NewDBPool ex_world
              "/data/meta" "leveldb" (Some 1%positive) eq_refl)
    as (Hret & _ & _ & Hget & Hnext).
  split; [exact Hret|]. split; [exact Hget|].
  exact (Hnext 3 "/data/chain" "leveldb" (Some 2%positive)).
Defined.

Lemma Register_first_meta_witness :
  snd (Register NewDBPool 1 "/data/meta" "leveldb" (Some 1%positive) true) = Returns tt /\
  metaDBID ex_pool_meta = 1 /\
  meta_store (E := memEngine) ex_pool_meta ex_world mem_empty /\
  GetBlockInfo (E := memEngine) ex_pool_meta ex_world = Returns (Some header_init, None).
Proof.
  destruct (Register_first_meta (E := memEngine) NewDBPool ex_world 1
              "/data/meta" "leveldb" 1%positive mem_empty)
    as (Hret & Hid & Hmeta & Hget).
  - reflexivity.
  - vm_compute. discriminate.
  - vm_compute. reflexivity.
  - split; [exact Hret|]. split; [exact Hid|]. split; [exact Hmeta|].
    apply Hget. vm_compute. reflexivity.
Defined.

Lemma ex_header_next_typed : BlockInfo_typed ex_header_next.
Proof.
  unfold BlockInfo_typed, is_int64, is_int32.
  repeat split; vm_compute; first [reflexivity | discriminate].
Qed.

Lemma WriteBlockInfo_last_wins_witness :
  GetBlockInfo (E := memEngine) ex_pool
    (fst (WriteBlockInfo (E := memEngine) ex_pool
            (fst (WriteBlockInfo (E := memEngine) ex_pool ex_world ex_header))
            ex_header_next))
    = Returns (Some ex_header_next, None).
Proof.
  apply (WriteBlockInfo_last_wins (E := memEngine) ex_pool ex_world
           (fst (WriteBlockInfo (E := memEngine) ex_pool ex_world ex_header))
           (fst (WriteBlockInfo (E := memEngine) ex_pool
                   (fst (WriteBlockInfo (E := memEngine) ex_pool ex_world ex_header))
                   ex_header_next))
           mem_empty ex_header ex_header_next
           mem_write_is_durable ex_meta_store ex_header_next_typed).
  - vm_compute. reflexivity.
  - vm_compute. reflexivity.
Defined.

Lemma WriteBlockInfo_invalid_UTF8_witness :
  WriteBlockInfo (E := memEngine) ex_pool ex_world ex_header_bad
    = (ex_world, Returns (Some (proto_err "string field contains invalid UTF-8"))).
Proof.
  apply (WriteBlockInfo_invalid_UTF8 (E := memEngine) ex_pool ex_world ex_header_bad).
  - vm_compute. discriminate.
  - left. vm_compute. reflexivity.
Defined.

Lemma getters_after_GetBlockInfo_witness :
  exists x : option BlockInfo,
    GetBlockInfo (E := memEngine) ex_pool ex_world_corrupt = Returns (x, None) /\
    GetBlockNum x = 0 /\ GetMsgOffset x = 0 /\ GetBlockSize x = 0 /\
    GetBlockType x = BlockInfo_UNKNOWN /\
    GetChainId x = "" /\ GetEnv x = "" /\ GetBlockHash x = "".
Proof.
  apply (proj1 (getters_after_GetBlockInfo (E := memEngine) ex_pool ex_world_corrupt
                  _ ex_meta_store_corrupt)
           [Byte.xff] (proto_err "cannot parse invalid wire-format data")).
  - vm_compute. reflexivity.
  - vm_compute. reflexivity.
Defined.

Lemma WriteBatchItems_stops_at_first_failure_witness :
  WriteBatchItems (E := memEngine) ex_pool ex_world ex_items_bad
    = (ex_world_k1, Returns (Some (leveldb_err (ErrEngine "leveldb: corrupted batch")))).
Proof.
  apply (proj1 (WriteBatchItems_stops_at_first_failure (E := memEngine)
                  ex_pool ex_world ex_world_k1
                  [ {| BatchItem_Id := 3; Data := Batch_Dump (ex_batch 2 "k1" "v1") |} ]
                  [ {| BatchItem_Id := 3; Data := Batch_Dump (ex_batch 2 "k3" "v3") |} ]
                  {| BatchItem_Id := 3; Data := [Byte.x02] |}
                  {| dbWrap_id := 3; dbWrap_db := Some 2%positive;
                     dbWrap_path := "/data/chain"; dbWrap_dbType := "leveldb";
                     dbWrap_isMeta := false |}
                  2%positive
                  ltac:(vm_compute; reflexivity) ltac:(vm_compute; reflexivity)
                  eq_refl));
    vm_compute; reflexivity.
Defined.

Lemma WriteBatchs_touches_only_targets_witness :
  fst (WriteBatchs (E := memEngine) ex_pool ex_world ex_batchs) !! 1%positive
    = ex_world !! 1%positive.
Proof.
  apply (WriteBatchs_touches_only_targets (E := memEngine) ex_pool ex_batchs 1%positive).
  unfold ex_batchs. repeat apply List.Forall_cons; try apply List.Forall_nil;
    cbn; discriminate.
Defined.

Lemma WriteBatchItems_touches_only_targets_witness :
  fst (WriteBatchItems (E := memEngine) ex_pool ex_world ex_items) !! 1%positive
    = ex_world !! 1%positive.
Proof.
  apply (WriteBatchItems_touches_only_targets (E := memEngine) ex_pool ex_items
           1%positive).
  unfold ex_items. repeat apply List.Forall_cons; try apply List.Forall_nil;
    vm_compute; discriminate.
Defined.
